(** * Wallet store of ethereum-monitor: a shallow embedding

    The development follows [src/wallet/wallets.ts],
    [src/provider/provider.ts] and [src/tests/test-transfer.ts].  The
    JavaScript runtime the code calls ([JSON], [fs], [console],
    [process.env]) is modelled first, then the ethers SDK as an interface,
    then the functions of the repository, and finally the properties of
    the wallet store.

    Conventions of the model:
    - a JavaScript string is represented by its UTF-8 bytes (a Rocq
      [string]); a file holds the UTF-8 bytes of the text written to it,
      and every file read holds well-formed UTF-8;
    - a path is the string the code builds; the file system is indexed by
      paths as they are spelled (no normalisation of [.], [..] or doubled
      separators, no links), the entries of a world being spelled as
      [canonical] says; an entry is a regular file or a directory, and
      reading fails only on a directory or a missing entry;
    - a call that may throw returns an [outcome]; [try]/[catch] is
      [try_catch]; an [await] is the call it waits for, and a call on the
      node answers or throws;
    - a wallet is one that [Wallet.createRandom] or
      [HDNodeWallet.fromPhrase] has built: it has no provider;
    - [walletCount] is an integer. *)

From Stdlib Require Import Ascii ZArith.
From stdpp Require Import base strings list option gmap.

Set Warnings "-register-all".


(** ** Characters and strings *)

Definition dquote : ascii := "034"%char.
Definition backslash : ascii := "\"%char.
Definition newline : ascii := "010"%char.

Definition str1 (c : ascii) : string := String c "".

(** [s.endsWith(suffix)] *)
Fixpoint endsWith (s suffix : string) : bool :=
  if String.eqb s suffix then true
  else match s with
       | EmptyString => false
       | String _ r => endsWith r suffix
       end.

(** ** JSON values, as [JSON.parse] produces them *)

(** A number keeps its exact decimal value [mantissa * 10 ^ exp10]; the
    code only ever tests a number for truthiness. *)
Inductive json : Type :=
| JNull
| JBool (b : bool)
| JNumber (mantissa exp10 : Z)
| JString (s : string)
| JArray (elems : list json)
| JObject (props : list (string * json)).

(** *** [JSON.stringify(value, null, 2)] on an object of string fields *)

Definition hex_digit (n : N) : ascii :=
  if (n <? 10)%N then ascii_of_N (48 + n) else ascii_of_N (87 + n).

(** One character of QuoteJSONString. *)
Definition quote_char (c : ascii) : string :=
  let n := N_of_ascii c in
  if (n =? 8)%N then "\b"
  else if (n =? 9)%N then "\t"
  else if (n =? 10)%N then "\n"
  else if (n =? 12)%N then "\f"
  else if (n =? 13)%N then "\r"
  else if (n <? 32)%N then
    "\u00" +:+ String (hex_digit (n / 16)) (str1 (hex_digit (n mod 16)))
  else if (n =? 34)%N then String backslash (str1 dquote)
  else if (n =? 92)%N then "\\"
  else str1 c.

Fixpoint quote_chars (s : string) : string :=
  match s with
  | EmptyString => EmptyString
  | String c r => quote_char c +:+ quote_chars r
  end.

Definition quote (s : string) : string :=
  String dquote (quote_chars s +:+ str1 dquote).

(** One member line at indentation 2: [  "key": "value"]. *)
Definition stringify_member (kv : string * string) : string :=
  "  " +:+ quote kv.1 +:+ ": " +:+ quote kv.2.

Fixpoint stringify_members (kvs : list (string * string)) : string :=
  match kvs with
  | [] => EmptyString
  | [kv] => stringify_member kv
  | kv :: rest =>
      stringify_member kv +:+ String "," (String newline (stringify_members rest))
  end.

(** The text of an object whose own enumerable properties are the string
    fields [kvs], in order. *)
Definition JSON_stringify_fields (kvs : list (string * string)) : string :=
  match kvs with
  | [] => "{}"
  | _ => String "{" (String newline (stringify_members kvs +:+ String newline "}"))
  end.

(** *** [JSON.parse] *)

Definition is_ws (c : ascii) : bool :=
  let n := N_of_ascii c in
  ((n =? 32) || (n =? 9) || (n =? 10) || (n =? 13))%N.

Fixpoint skip_ws (s : string) : string :=
  match s with
  | String c r => if is_ws c then skip_ws r else s
  | EmptyString => EmptyString
  end.

Definition unescape (e : ascii) : option ascii :=
  let n := N_of_ascii e in
  if (n =? 34)%N then Some dquote
  else if (n =? 92)%N then Some backslash
  else if (n =? 47)%N then Some "/"%char
  else if (n =? 98)%N then Some "008"%char
  else if (n =? 102)%N then Some "012"%char
  else if (n =? 110)%N then Some "010"%char
  else if (n =? 114)%N then Some "013"%char
  else if (n =? 116)%N then Some "009"%char
  else None.

Definition hex_value (c : ascii) : option N :=
  let n := N_of_ascii c in
  if ((48 <=? n) && (n <=? 57))%N then Some (n - 48)%N
  else if ((97 <=? n) && (n <=? 102))%N then Some (n - 87)%N
  else if ((65 <=? n) && (n <=? 70))%N then Some (n - 55)%N
  else None.

Definition hex4 (h1 h2 h3 h4 : ascii) : option N :=
  match hex_value h1, hex_value h2, hex_value h3, hex_value h4 with
  | Some a, Some b, Some c, Some d => Some (((a * 16 + b) * 16 + c) * 16 + d)%N
  | _, _, _, _ => None
  end.

(** UTF-8 bytes of a code point (an unpaired surrogate takes the
    three-byte form). *)
Definition utf8_encode (cp : N) : string :=
  if (cp <? 128)%N then str1 (ascii_of_N cp)
  else if (cp <? 2048)%N then
    String (ascii_of_N (192 + cp / 64)) (str1 (ascii_of_N (128 + cp mod 64)))
  else if (cp <? 65536)%N then
    String (ascii_of_N (224 + cp / 4096))
      (String (ascii_of_N (128 + (cp / 64) mod 64))
         (str1 (ascii_of_N (128 + cp mod 64))))
  else
    String (ascii_of_N (240 + cp / 262144))
      (String (ascii_of_N (128 + (cp / 4096) mod 64))
         (String (ascii_of_N (128 + (cp / 64) mod 64))
            (str1 (ascii_of_N (128 + cp mod 64))))).

Definition is_high_surrogate (u : N) : bool := ((55296 <=? u) && (u <? 56320))%N.
Definition is_low_surrogate (u : N) : bool := ((56320 <=? u) && (u <? 57344))%N.
Definition surrogate_pair (hi lo : N) : N :=
  (65536 + (hi - 55296) * 1024 + (lo - 56320))%N.

Definition prepend (p : string) (r : option (string * string)) : option (string * string) :=
  match r with
  | Some (s, rest) => Some (p +:+ s, rest)
  | None => None
  end.

(** The characters of a string literal after its opening quote, up to and
    including the closing quote; returns the decoded text and the rest of
    the input. *)
Fixpoint parse_chars (s : string) : option (string * string) :=
  match s with
  | EmptyString => None
  | String c r =>
    if Ascii.eqb c dquote then Some (EmptyString, r)
    else if Ascii.eqb c backslash then
      match r with
      | EmptyString => None
      | String e r0 =>
        match unescape e with
        | Some b => prepend (str1 b) (parse_chars r0)
        | None =>
          if Ascii.eqb e "u" then
            match r0 with
            | String h1 (String h2 (String h3 (String h4 r1))) =>
              match hex4 h1 h2 h3 h4 with
              | None => None
              | Some u =>
                if is_high_surrogate u then
                  match r1 with
                  | String b1 (String b2 (String l1 (String l2 (String l3 (String l4 r2))))) =>
                    match hex4 l1 l2 l3 l4 with
                    | Some lo =>
                      if Ascii.eqb b1 backslash && Ascii.eqb b2 "u" && is_low_surrogate lo
                      then prepend (utf8_encode (surrogate_pair u lo)) (parse_chars r2)
                      else prepend (utf8_encode u) (parse_chars r1)
                    | None => prepend (utf8_encode u) (parse_chars r1)
                    end
                  | _ => prepend (utf8_encode u) (parse_chars r1)
                  end
                else prepend (utf8_encode u) (parse_chars r1)
              end
            | _ => None
            end
          else None
        end
      end
    else if (N_of_ascii c <? 32)%N then None
    else prepend (str1 c) (parse_chars r)
  end.

Definition is_digit (c : ascii) : bool :=
  let n := N_of_ascii c in ((48 <=? n) && (n <=? 57))%N.

Fixpoint span_digits (s : string) : string * string :=
  match s with
  | String c r =>
    if is_digit c then let '(d, rest) := span_digits r in (String c d, rest)
    else (EmptyString, s)
  | EmptyString => (EmptyString, EmptyString)
  end.

Fixpoint digits_value (acc : N) (d : string) : N :=
  match d with
  | String c r => digits_value (acc * 10 + (N_of_ascii c - 48))%N r
  | EmptyString => acc
  end.

(** The integer part: a single [0], or a non-zero digit followed by digits. *)
Definition parse_int_part (s : string) : option (string * string) :=
  match s with
  | String c r =>
    if Ascii.eqb c "0" then Some ("0", r)
    else if is_digit c then Some (span_digits s)
    else None
  | EmptyString => None
  end.

Definition parse_frac_part (s : string) : option (string * string) :=
  match s with
  | String c r =>
    if Ascii.eqb c "." then
      match span_digits r with
      | (EmptyString, _) => None
      | (d, rest) => Some (d, rest)
      end
    else Some (EmptyString, s)
  | EmptyString => Some (EmptyString, s)
  end.

Definition parse_exp_digits (neg : bool) (s : string) : option (Z * string) :=
  match span_digits s with
  | (EmptyString, _) => None
  | (d, rest) =>
    let e := Z.of_N (digits_value 0 d) in
    Some (if neg then (- e)%Z else e, rest)
  end.

Definition parse_exp_part (s : string) : option (Z * string) :=
  match s with
  | String c r =>
    if Ascii.eqb c "e" || Ascii.eqb c "E" then
      match r with
      | String sg r' =>
        if Ascii.eqb sg "-" then parse_exp_digits true r'
        else if Ascii.eqb sg "+" then parse_exp_digits false r'
        else parse_exp_digits false r
      | EmptyString => None
      end
    else Some (0%Z, s)
  | EmptyString => Some (0%Z, s)
  end.

Definition parse_number (s : string) : option (json * string) :=
  let '(neg, s1) :=
    match s with
    | String c r => if Ascii.eqb c "-" then (true, r) else (false, s)
    | EmptyString => (false, s)
    end in
  match parse_int_part s1 with
  | None => None
  | Some (ip, s2) =>
    match parse_frac_part s2 with
    | None => None
    | Some (fp, s3) =>
      match parse_exp_part s3 with
      | None => None
      | Some (e, s4) =>
        let m := Z.of_N (digits_value 0 (ip +:+ fp)) in
        Some (JNumber (if neg then (- m)%Z else m)
                      (e - Z.of_nat (String.length fp))%Z, s4)
      end
    end
  end.

Fixpoint strip_prefix (p s : string) : option string :=
  match p with
  | EmptyString => Some s
  | String c p' =>
    match s with
    | String d s' => if Ascii.eqb c d then strip_prefix p' s' else None
    | EmptyString => None
    end
  end.

Definition parse_literal (lit : string) (v : json) (s : string) : option (json * string) :=
  match strip_prefix lit s with
  | Some rest => Some (v, rest)
  | None => None
  end.

(** Recursive descent over the JSON grammar.  Every call consumes a
    character before it calls deeper, so [fuel] above the length of the
    text is never exhausted. *)
Fixpoint parse_value (fuel : nat) (s : string) : option (json * string) :=
  match fuel with
  | O => None
  | S fuel' =>
    match skip_ws s with
    | EmptyString => None
    | String c r =>
      if Ascii.eqb c "{" then
        match skip_ws r with
        | EmptyString => None
        | String c' r' =>
          if Ascii.eqb c' "}" then Some (JObject [], r')
          else match parse_members fuel' r with
               | Some (props, rest) => Some (JObject props, rest)
               | None => None
               end
        end
      else if Ascii.eqb c "[" then
        match skip_ws r with
        | EmptyString => None
        | String c' r' =>
          if Ascii.eqb c' "]" then Some (JArray [], r')
          else match parse_elements fuel' r with
               | Some (elems, rest) => Some (JArray elems, rest)
               | None => None
               end
        end
      else if Ascii.eqb c dquote then
        match parse_chars r with
        | Some (str, rest) => Some (JString str, rest)
        | None => None
        end
      else if Ascii.eqb c "t" then parse_literal "rue" (JBool true) r
      else if Ascii.eqb c "f" then parse_literal "alse" (JBool false) r
      else if Ascii.eqb c "n" then parse_literal "ull" JNull r
      else parse_number (String c r)
    end
  end
with parse_members (fuel : nat) (s : string) : option (list (string * json) * string) :=
  match fuel with
  | O => None
  | S fuel' =>
    match skip_ws s with
    | EmptyString => None
    | String c r =>
      if Ascii.eqb c dquote then
        match parse_chars r with
        | None => None
        | Some (key, r1) =>
          match skip_ws r1 with
          | EmptyString => None
          | String c1 r2 =>
            if Ascii.eqb c1 ":" then
              match parse_value fuel' r2 with
              | None => None
              | Some (v, r3) =>
                match skip_ws r3 with
                | EmptyString => None
                | String c3 r4 =>
                  if Ascii.eqb c3 "," then
                    match parse_members fuel' r4 with
                    | Some (rest, r5) => Some ((key, v) :: rest, r5)
                    | None => None
                    end
                  else if Ascii.eqb c3 "}" then Some ([(key, v)], r4)
                  else None
                end
              end
            else None
          end
        end
      else None
    end
  end
with parse_elements (fuel : nat) (s : string) : option (list json * string) :=
  match fuel with
  | O => None
  | S fuel' =>
    match parse_value fuel' s with
    | None => None
    | Some (v, r1) =>
      match skip_ws r1 with
      | EmptyString => None
      | String c r2 =>
        if Ascii.eqb c "," then
          match parse_elements fuel' r2 with
          | Some (rest, r3) => Some (v :: rest, r3)
          | None => None
          end
        else if Ascii.eqb c "]" then Some ([v], r2)
        else None
      end
    end
  end.

(** [JSON.parse(text)]; [None] is the [SyntaxError]. *)
Definition JSON_parse (text : string) : option json :=
  match parse_value (S (String.length text)) text with
  | Some (v, rest) =>
    match skip_ws rest with
    | EmptyString => Some v
    | String _ _ => None
    end
  | None => None
  end.

(** [fuel] is enough for [parse]: what it reads with [fuel] it reads with
    any fuel that is at least the number of characters read. *)
Definition fuel_enough {A : Type} (parse : nat → string → option (A * string))
    (fuel : nat) : Prop :=
  ∀ (s : string) (x : A) (r : string),
    parse fuel s = Some (x, r) →
    String.length r < String.length s ∧
    ∀ fuel' : nat,
      String.length s - String.length r ≤ fuel' → parse fuel' s = Some (x, r).

(** *** Property reads and truthiness *)

(** The own property [key] of an object; a key that occurs twice in the
    text takes its last value. *)
Fixpoint object_get {A : Type} (props : list (string * A)) (key : string) : option A :=
  match props with
  | [] => None
  | (k, v) :: rest =>
    match object_get rest key with
    | Some v' => Some v'
    | None => if String.eqb k key then Some v else None
    end
  end.

(** A number is falsy exactly when its double is zero: the decimal is
    zero, or its magnitude is at most [2 ^ -1075] and rounds to zero. *)
Definition number_truthy (mantissa exp10 : Z) : bool :=
  if (mantissa =? 0)%Z then false
  else if (0 <=? exp10)%Z then true
  else (10 ^ (- exp10) <? Z.abs mantissa * 2 ^ 1075)%Z.

(** Truthiness of a value read from a parsed text; [None] is [undefined]. *)
Definition truthy (v : option json) : bool :=
  match v with
  | None => false
  | Some JNull => false
  | Some (JBool b) => b
  | Some (JNumber m e) => number_truthy m e
  | Some (JString s) => negb (String.eqb s "")
  | Some (JArray _) => true
  | Some (JObject _) => true
  end.

(** ** Errors, outcomes and the world *)

Inductive error : Type :=
| FsError (code path : string)      (* ENOENT, EEXIST, EISDIR, ENOTDIR *)
| SyntaxError                       (* JSON.parse *)
| TypeError                         (* property read on null, method missing *)
| SdkError (reason : string)        (* thrown inside ethers *)
| TransportError (reason : string)  (* thrown by a JSON-RPC call *)
| Error (message : string).         (* throw new Error(message) *)

Inductive outcome (A : Type) : Type :=
| Return (a : A)
| Throw (e : error).
Arguments Return {A} a.
Arguments Throw {A} e.

(** *** The ethers SDK *)

Module Mnemonic.
Record t : Type := mk { phrase : string }.
End Mnemonic.

Module HDNodeWallet.
Record t : Type := mk {
  address : string;
  privateKey : string;
  publicKey : string;
  mnemonic : option Mnemonic.t
}.
End HDNodeWallet.

(** Values of the fields of a plain object literal. *)
Inductive jsval : Type :=
| VNull
| VString (s : string)
| VNumber (n : Z)
| VBigInt (n : Z).

Record JsonRpcProvider : Type := { providerUrl : string }.
Record FeeData : Type := { gasPrice : option Z }.
Record TransactionResponse : Type := { hash : string }.
Record TransactionReceipt : Type := { blockNumber : Z }.

(** The 128 bits [Wallet.createRandom] draws. *)
Definition Entropy : Type := N.

(** What the code relies on from the SDK.  [createRandom e] is the wallet
    [Wallet.createRandom()] builds when it draws [e]; [fromPhrase] is
    [HDNodeWallet.fromPhrase] with its default password, path and word
    list, [None] when it throws.  Both derive the wallet from the
    mnemonic along the same default path, which is what
    [createRandom_fromPhrase] records. *)
Class Ethers : Type := {
  createRandom : Entropy → HDNodeWallet.t;
  fromPhrase : string → option HDNodeWallet.t;
  parseEther : string → option Z;
  fromPhrase_empty : fromPhrase "" = None;
  createRandom_fromPhrase : ∀ e : Entropy,
    ∃ m : Mnemonic.t,
      HDNodeWallet.mnemonic (createRandom e) = Some m ∧
      fromPhrase (Mnemonic.phrase m) = Some (createRandom e)
}.

(** *** The JSON-RPC node and its log of calls *)

Inductive rpc_call : Type :=
| CallGetTransactionCount (address : option string) (blockTag : string)
| CallGetFeeData
| CallSendTransaction (signer : HDNodeWallet.t) (tx : list (string * jsval))
| CallWait (transaction : TransactionResponse).

(** How the calls on the provider and on a pending transaction come
    out; each may throw instead of answering.  A submission never reaches
    the node, see [wallet_sendTransaction]. *)
Record Node : Type := {
  getTransactionCount : option string → string → outcome Z;
  getFeeData : outcome FeeData;
  wait : TransactionResponse → outcome (option TransactionReceipt)
}.

(** *** The file system *)

Inductive entry : Type :=
| File (content : string)
| Directory.

Inductive console_line : Type :=
| ConsoleError (message : string) (err : error)
| ConsoleLog (message : string) (receipt : option TransactionReceipt).

(** [files] lists the entries in the order a directory scan yields them;
    [console] has the newest line last; [random] is the stream of
    entropy still to be drawn; [calls] has the newest call last. *)
Record world : Type := {
  files : list (string * entry);
  console : list console_line;
  random : nat → Entropy;
  env : gmap string string;
  node : Node;
  calls : list rpc_call
}.

Definition set_files (f : list (string * entry)) (σ : world) : world :=
  {| files := f; console := console σ; random := random σ;
     env := env σ; node := node σ; calls := calls σ |}.
Definition set_console (c : list console_line) (σ : world) : world :=
  {| files := files σ; console := c; random := random σ;
     env := env σ; node := node σ; calls := calls σ |}.
Definition set_random (r : nat → Entropy) (σ : world) : world :=
  {| files := files σ; console := console σ; random := r;
     env := env σ; node := node σ; calls := calls σ |}.
Definition set_calls (c : list rpc_call) (σ : world) : world :=
  {| files := files σ; console := console σ; random := random σ;
     env := env σ; node := node σ; calls := c |}.

(** ** Computations that read and change the world, and may throw *)

Definition M (A : Type) : Type := world → outcome A * world.

#[global] Instance M_ret : MRet M := λ A a σ, (Return a, σ).
#[global] Instance M_bind : MBind M := λ A B f m σ,
  match m σ with
  | (Return a, σ') => f a σ'
  | (Throw e, σ') => (Throw e, σ')
  end.

Definition throw {A : Type} (e : error) : M A := λ σ, (Throw e, σ).

(** [try { body } catch (error) { handler }] *)
Definition try_catch {A : Type} (body : M A) (handler : error → M A) : M A :=
  λ σ, match body σ with
       | (Return a, σ') => (Return a, σ')
       | (Throw e, σ') => handler e σ'
       end.

Definition lift_option {A : Type} (e : error) (o : option A) : M A :=
  match o with
  | Some a => mret a
  | None => throw e
  end.

(** [array.forEach(callback)] *)
Fixpoint forEach {A : Type} (array : list A) (callback : A → M unit) : M unit :=
  match array with
  | [] => mret tt
  | x :: rest => callback x ;; forEach rest callback
  end.

(** A [forEach] whose callback updates a local array [acc] of the
    enclosing function. *)
Fixpoint forEach_with {A S : Type} (array : list A) (acc : S)
    (callback : S → A → M S) : M S :=
  match array with
  | [] => mret acc
  | x :: rest => acc' ← callback acc x; forEach_with rest acc' callback
  end.

(** *** [fs] *)

(** A path split at its last separator: the directory part and the name. *)
Fixpoint split_path (p : string) : option (string * string) :=
  match p with
  | EmptyString => None
  | String c r =>
    match split_path r with
    | Some (d, name) => Some (String c d, name)
    | None => if Ascii.eqb c "/" then Some (EmptyString, r) else None
    end
  end.

(** The names a path is made of. *)
Fixpoint path_names (p : string) : list string :=
  match p with
  | EmptyString => [EmptyString]
  | String c r =>
    if Ascii.eqb c "/" then EmptyString :: path_names r
    else match path_names r with
         | name :: names => String c name :: names
         | [] => [String c EmptyString]
         end
  end.

(** The entries of a world are keyed by their paths as spelled from the
    working directory: [.] itself, [./name] inside it, [./name/name]
    below, with no name empty, [.] or [..].  Only in this spelling do two
    paths name the same entry exactly when they are equal; a trailing or
    doubled separator, or a path that does not start at [.], is another
    spelling of an entry and is not looked up as that entry. *)
Definition canonical (p : string) : bool :=
  match path_names p with
  | first :: names =>
    String.eqb first "." &&
    forallb (λ name, negb (String.eqb name "") && negb (String.eqb name ".")
                     && negb (String.eqb name "..")) names
  | [] => false
  end.



Fixpoint lookup_path (f : list (string * entry)) (p : string) : option entry :=
  match f with
  | [] => None
  | (q, e) :: rest => if String.eqb q p then Some e else lookup_path rest p
  end.

(** Replace the entry at [p] where it stands, or add it.  Where a new
    entry comes in a later scan of its directory is up to the file
    system; the properties below that scan after a write are stated up
    to the order of the scan. *)
Fixpoint store_path (f : list (string * entry)) (p : string) (e : entry)
    : list (string * entry) :=
  match f with
  | [] => [(p, e)]
  | (q, e') :: rest =>
    if String.eqb q p then (q, e) :: rest else (q, e') :: store_path rest p e
  end.

(** The directory a new entry at [p] goes into exists: a path without a
    separator is relative to the working directory, and the empty path
    names nothing. *)
Definition parent_error (f : list (string * entry)) (p : string) : option error :=
  match split_path p with
  | None => if String.eqb p "" then Some (FsError "ENOENT" p) else None
  | Some (d, _) =>
    match lookup_path f d with
    | Some Directory => None
    | Some (File _) => Some (FsError "ENOTDIR" p)
    | None => Some (FsError "ENOENT" p)
    end
  end.

Definition fs_existsSync (p : string) : M bool :=
  λ σ, (Return match lookup_path (files σ) p with
               | Some _ => true
               | None => false
               end, σ).

Definition fs_mkdirSync (p : string) : M unit :=
  λ σ, match lookup_path (files σ) p with
       | Some _ => (Throw (FsError "EEXIST" p), σ)
       | None =>
         match parent_error (files σ) p with
         | Some e => (Throw e, σ)
         | None => (Return tt, set_files (store_path (files σ) p Directory) σ)
         end
       end.

Definition fs_writeFileSync (p data : string) : M unit :=
  λ σ, match lookup_path (files σ) p with
       | Some Directory => (Throw (FsError "EISDIR" p), σ)
       | Some (File _) => (Return tt, set_files (store_path (files σ) p (File data)) σ)
       | None =>
         match parent_error (files σ) p with
         | Some e => (Throw e, σ)
         | None => (Return tt, set_files (store_path (files σ) p (File data)) σ)
         end
       end.

(** [fs.readFileSync(p, "utf8")] *)
Definition fs_readFileSync (p : string) : M string :=
  λ σ, match lookup_path (files σ) p with
       | Some (File data) => (Return data, σ)
       | Some Directory => (Throw (FsError "EISDIR" p), σ)
       | None => (Throw (FsError "ENOENT" p), σ)
       end.

(** The names of the entries directly inside [d], in scan order. *)
Fixpoint children (f : list (string * entry)) (d : string) : list string :=
  match f with
  | [] => []
  | (q, _) :: rest =>
    match split_path q with
    | Some (d', name) =>
      if String.eqb d' d then name :: children rest d else children rest d
    | None => children rest d
    end
  end.

Definition fs_readdirSync (d : string) : M (list string) :=
  λ σ, match lookup_path (files σ) d with
       | Some Directory => (Return (children (files σ) d), σ)
       | Some (File _) => (Throw (FsError "ENOTDIR" d), σ)
       | None => (Throw (FsError "ENOENT" d), σ)
       end.

(** *** [console], [process.env], randomness *)

Definition console_error (message : string) (err : error) : M unit :=
  λ σ, (Return tt, set_console (console σ ++ [ConsoleError message err]) σ).

Definition console_log (message : string) (receipt : option TransactionReceipt) : M unit :=
  λ σ, (Return tt, set_console (console σ ++ [ConsoleLog message receipt]) σ).

Definition process_env (name : string) : M (option string) :=
  λ σ, (Return (env σ !! name), σ).

Definition draw_entropy : M Entropy :=
  λ σ, (Return (random σ 0), set_random (λ i, random σ (S i)) σ).

(** *** [JSON] inside a computation *)

Definition JSON_parse_M (text : string) : M json :=
  lift_option SyntaxError (JSON_parse text).

(** [value.key] for a key that no built-in prototype defines: [undefined]
    unless [value] is an object that has it; reading from [null] throws. *)
Definition get_property (value : json) (key : string) : M (option json) :=
  match value with
  | JNull => throw TypeError
  | JObject props => mret (object_get props key)
  | _ => mret None
  end.

(** ** src/wallet/wallets.ts *)

Module WalletData.
Record t : Type := mk {
  address : string;
  privateKey : string;
  publicKey : string;
  phrase : option string
}.
End WalletData.

(** The own properties of a [WalletData] object literal, in the order the
    literal lists them; a property whose value is [undefined] is not
    written by [JSON.stringify]. *)
Definition WalletData_fields (d : WalletData.t) : list (string * string) :=
  [("address", WalletData.address d);
   ("privateKey", WalletData.privateKey d);
   ("publicKey", WalletData.publicKey d)]
  ++ match WalletData.phrase d with
     | Some p => [("phrase", p)]
     | None => []
     end.

(** [JSON.stringify(walletData, null, 2)] *)
Definition JSON_stringify (d : WalletData.t) : string :=
  JSON_stringify_fields (WalletData_fields d).

(** An object of string fields as a parsed value. *)
Definition string_props (kvs : list (string * string)) : list (string * json) :=
  prod_map id JString <$> kvs.

(** The value [JSON.parse] gives back for such a text. *)
Definition WalletData_json (d : WalletData.t) : json :=
  JObject (string_props (WalletData_fields d)).

(** The defaults of the optional parameters [walletsDir] and
    [walletCount]; a call that leaves the argument out passes them. *)
Definition default_walletsDir : string := "./wallets".
Definition default_walletCount : Z := 10.

Section Wallets.
Context `{Ethers}.

(** [ethers.Wallet.createRandom()] *)
Definition Wallet_createRandom : M HDNodeWallet.t :=
  e ← draw_entropy; mret (createRandom e).

(** [ethers.HDNodeWallet.fromPhrase(value)] on a value read from a
    parsed text: a value that is not a string has no [toLowerCase]. *)
Definition HDNodeWallet_fromPhrase (value : option json) : M HDNodeWallet.t :=
  match value with
  | Some (JString p) => lift_option (SdkError "invalid mnemonic") (fromPhrase p)
  | _ => throw TypeError
  end.

(** [for (let i = 0; i < walletCount; i++)], [n] iterations left. *)
Fixpoint createWallets_loop (n : nat) (wallets : list HDNodeWallet.t)
    : M (list HDNodeWallet.t) :=
  match n with
  | O => mret wallets
  | S n' =>
    wallet ← Wallet_createRandom;
    createWallets_loop n' (wallets ++ [wallet])
  end.

Definition createWallets (walletCount : Z) : M (list HDNodeWallet.t) :=
  createWallets_loop (Z.to_nat walletCount) [].

Definition getWalletData (wallet : HDNodeWallet.t) : WalletData.t :=
  {| WalletData.address := HDNodeWallet.address wallet;
     WalletData.privateKey := HDNodeWallet.privateKey wallet;
     WalletData.publicKey := HDNodeWallet.publicKey wallet;
     WalletData.phrase := Mnemonic.phrase <$> HDNodeWallet.mnemonic wallet |}.

Definition saveWallets (wallets : list HDNodeWallet.t) (walletsDir : string) : M unit :=
  dirExists ← fs_existsSync walletsDir;
  (if negb dirExists then fs_mkdirSync walletsDir else mret tt);;
  forEach wallets (λ wallet,
    let walletData :=
      {| WalletData.address := HDNodeWallet.address wallet;
         WalletData.privateKey := HDNodeWallet.privateKey wallet;
         WalletData.publicKey := HDNodeWallet.publicKey wallet;
         WalletData.phrase := Mnemonic.phrase <$> HDNodeWallet.mnemonic wallet |} in
    let walletJson := JSON_stringify walletData in
    let walletFilePath :=
      walletsDir +:+ "/" +:+ HDNodeWallet.address wallet +:+ ".json" in
    fs_writeFileSync walletFilePath walletJson).

Definition load_failed : string := "加载钱包文件失败: ".

(** The callback of [walletFiles.forEach] in [loadWallets]; [wallets] is
    the array it pushes to. *)
Definition loadWallets_callback (walletsDir : string)
    (wallets : list HDNodeWallet.t) (walletFile : string)
    : M (list HDNodeWallet.t) :=
  if negb (endsWith walletFile ".json") then mret wallets
  else
    let walletFilePath := walletsDir +:+ "/" +:+ walletFile in
    try_catch
      (walletJson ← fs_readFileSync walletFilePath;
       walletData ← JSON_parse_M walletJson;
       phrase ← get_property walletData "phrase";
       if truthy phrase then
         wallet ← HDNodeWallet_fromPhrase phrase;
         mret (wallets ++ [wallet])
       else mret wallets)
      (λ error,
         console_error (load_failed +:+ walletFilePath) error;;
         mret wallets).

Definition loadWallets (walletsDir : string) : M (list HDNodeWallet.t) :=
  let wallets := [] in
  dirExists ← fs_existsSync walletsDir;
  if negb dirExists then mret wallets
  else
    walletFiles ← fs_readdirSync walletsDir;
    forEach_with walletFiles wallets (loadWallets_callback walletsDir).

(** [returned] is what the [try] block returned, if it did; the
    function's [null] is [None]. *)
Definition loadWallet (walletAddress walletsDir : string) : M (option HDNodeWallet.t) :=
  let walletFilePath := walletsDir +:+ "/" +:+ walletAddress +:+ ".json" in
  fileExists ← fs_existsSync walletFilePath;
  if negb fileExists then mret None
  else
    returned ← try_catch
      (walletJson ← fs_readFileSync walletFilePath;
       walletData ← JSON_parse_M walletJson;
       phrase ← get_property walletData "phrase";
       if truthy phrase then
         wallet ← HDNodeWallet_fromPhrase phrase;
         mret (Some wallet)
       else mret None)
      (λ error,
         console_error (load_failed +:+ walletFilePath) error;;
         mret None);
    match returned with
    | Some wallet => mret (Some wallet)
    | None => mret None
    end.

(** ** src/tests/test-wallet.ts *)

Definition testCreateWallets : M unit :=
  wallets ← createWallets default_walletCount;
  saveWallets wallets default_walletsDir.

(** ** src/provider/provider.ts *)

Definition getProvider (providerUrl : string) : JsonRpcProvider :=
  {| providerUrl := providerUrl |}.

(** ** src/tests/test-transfer.ts *)

(** The calls on the provider, the signer and the pending transaction:
    each is logged, then answered. *)
Definition rpc {A : Type} (call : rpc_call) (answer : Node → outcome A) : M A :=
  λ σ, (answer (node σ), set_calls (calls σ ++ [call]) σ).

Definition provider_getTransactionCount (provider : JsonRpcProvider)
    (address : option string) (blockTag : string) : M Z :=
  rpc (CallGetTransactionCount address blockTag)
      (λ n, getTransactionCount n address blockTag).

Definition provider_getFeeData (provider : JsonRpcProvider) : M FeeData :=
  rpc CallGetFeeData getFeeData.

(** [wallet.sendTransaction(tx)] on a wallet as [Wallet.createRandom] and
    [HDNodeWallet.fromPhrase] build it.  Such a wallet has no provider,
    and nothing in the code connects it to one: the signer refuses the
    operation before it populates, signs or broadcasts anything. *)
Definition wallet_sendTransaction (wallet : HDNodeWallet.t)
    (tx : list (string * jsval)) : M TransactionResponse :=
  rpc (CallSendTransaction wallet tx) (λ _, Throw (SdkError "missing provider")).

Definition transaction_wait (transaction : TransactionResponse)
    : M (option TransactionReceipt) :=
  rpc (CallWait transaction) (λ n, wait n transaction).

(** A template literal prints [undefined] for a missing value. *)
Definition interpolate (v : option string) : string :=
  default "undefined" v.

Definition nonempty (v : option string) : bool :=
  match v with
  | Some s => negb (String.eqb s "")
  | None => false
  end.

Definition bigint_or_null (v : option Z) : jsval :=
  match v with
  | Some n => VBigInt n
  | None => VNull
  end.

Definition testTransfer : M unit :=
  providerUrl ← process_env "PROVIDER_URL";
  if negb (nonempty providerUrl) then throw (Error "PROVIDER_URL is not defined")
  else
    let provider := getProvider (interpolate providerUrl) in
    walletAddress ← process_env "TEST_WALLET_ADDRESS";
    wallet ← loadWallet (interpolate walletAddress) default_walletsDir;
    match wallet with
    | None =>
      throw (Error ("Wallet " +:+ interpolate walletAddress +:+ " not found"))
    | Some wallet =>
      recipientAddress ← process_env "TEST_RECIPIENT_ADDRESS";
      if negb (nonempty recipientAddress)
      then throw (Error "TEST_RECIPIENT_ADDRESS is not defined")
      else
        let amountInEther := "0.1" in
        nounce ← provider_getTransactionCount provider walletAddress "pending";
        feeData ← provider_getFeeData provider;
        value ← lift_option (SdkError "invalid FixedNumber string value")
                            (parseEther amountInEther);
        let tx := [("to", VString (interpolate recipientAddress));
                   ("value", VBigInt value);
                   ("nounce", VNumber nounce);
                   ("gasLimit", VNumber 21000);
                   ("gasPrice", bigint_or_null (gasPrice feeData))] in
        transaction ← wallet_sendTransaction wallet tx;
        recipt ← transaction_wait transaction;
        console_log "Transaction receipt:" recipt
    end.

End Wallets.


(** ** Notions used to state the properties *)

(** The path of the record file of [walletAddress] in [walletsDir], as
    [saveWallets] and [loadWallet] build it. *)
Definition wallet_path (walletsDir walletAddress : string) : string :=
  walletsDir +:+ "/" +:+ walletAddress +:+ ".json".

Definition load_failure_line (path : string) (e : error) : console_line :=
  ConsoleError (load_failed +:+ path) e.

(** The world after [console.error] has reported a failed load of [path]. *)
Definition log_failure (path : string) (e : error) (σ : world) : world :=
  set_console (console σ ++ [load_failure_line path e]) σ.

(** A parsed text without a [phrase] field. *)
Definition phraseless (v : json) : Prop :=
  match v with
  | JObject props => object_get props "phrase" = None
  | _ => True
  end.

(** The request object [testTransfer] hands to [sendTransaction]. *)
Definition transfer_request (recipient : string) (value nounce : Z)
    (fee : FeeData) : list (string * jsval) :=
  [("to", VString recipient); ("value", VBigInt value);
   ("nounce", VNumber nounce); ("gasLimit", VNumber 21000);
   ("gasPrice", bigint_or_null (gasPrice fee))].

(** The invariant of a store directory: a file [<stem>.json] holds a
    record whose [address] field is [stem]. *)
Definition store_invariant (dir : string) (f : list (string * entry)) : Prop :=
  ∀ stem content : string,
    lookup_path f (wallet_path dir stem) = Some (File content) →
    ∃ props : list (string * json),
      JSON_parse content = Some (JObject props) ∧
      object_get props "address" = Some (JString stem).

(** The wallet whose record is written last under address [a]. *)
Fixpoint last_with_address (ws : list HDNodeWallet.t) (a : string)
    : option HDNodeWallet.t :=
  match ws with
  | [] => None
  | w :: rest =>
    match last_with_address rest a with
    | Some w' => Some w'
    | None => if String.eqb (HDNodeWallet.address w) a then Some w else None
    end
  end.

(** One round of the [forEach] of [saveWallets]. *)
Definition save_one (walletsDir : string) (wallet : HDNodeWallet.t) : M unit :=
  fs_writeFileSync (wallet_path walletsDir (HDNodeWallet.address wallet))
                   (JSON_stringify (getWalletData wallet)).

(** Writing a record succeeds in a directory that exists, under a name
    without separator that is not taken by a directory. *)
Definition can_save (dir : string) (f : list (string * entry))
    (w : HDNodeWallet.t) : Prop :=
  split_path (HDNodeWallet.address w +:+ ".json") = None ∧
  lookup_path f (wallet_path dir (HDNodeWallet.address w)) ≠ Some Directory.

(** Two worlds that differ in their files at most. *)
Definition same_but_files (σ σ' : world) : Prop :=
  console σ' = console σ ∧ random σ' = random σ ∧ env σ' = env σ ∧
  node σ' = node σ ∧ calls σ' = calls σ.

(** The files after a round of the [forEach] of [saveWallets] that
    has returned. *)
Definition write_record (dir : string) (f : list (string * entry))
    (w : HDNodeWallet.t) : list (string * entry) :=
  store_path f (wallet_path dir (HDNodeWallet.address w))
             (File (JSON_stringify (getWalletData w))).

Section Notions.
Context `{Ethers}.

(** A wallet [Wallet.createRandom] can return. *)
Definition generated (w : HDNodeWallet.t) : Prop :=
  ∃ e : Entropy, w = createRandom e.

(** What the body of the [try] makes of a parsed text: the wallet it
    returns or pushes, nothing, or the exception it raises. *)
Definition recover (v : json) : outcome (option HDNodeWallet.t) :=
  match v with
  | JNull => Throw TypeError
  | JObject props =>
    match object_get props "phrase" with
    | Some (JString p) =>
      if String.eqb p "" then Return None
      else match fromPhrase p with
           | Some w => Return (Some w)
           | None => Throw (SdkError "invalid mnemonic")
           end
    | phrase => if truthy phrase then Throw TypeError else Return None
    end
  | _ => Return None
  end.

(** What the callback of [loadWallets] makes of the entry [name]. *)
Definition scan_entry (f : list (string * entry)) (dir name : string)
    : outcome (option HDNodeWallet.t) :=
  if endsWith name ".json" then
    match lookup_path f (dir +:+ "/" +:+ name) with
    | Some (File content) =>
      match JSON_parse content with
      | Some v => recover v
      | None => Throw SyntaxError
      end
    | Some Directory => Throw (FsError "EISDIR" (dir +:+ "/" +:+ name))
    | None => Throw (FsError "ENOENT" (dir +:+ "/" +:+ name))
    end
  else Return None.

Definition scan_wallet (f : list (string * entry)) (dir name : string)
    : option HDNodeWallet.t :=
  match scan_entry f dir name with
  | Return r => r
  | Throw _ => None
  end.

Definition scan_failure (f : list (string * entry)) (dir name : string)
    : option console_line :=
  match scan_entry f dir name with
  | Return _ => None
  | Throw e => Some (load_failure_line (dir +:+ "/" +:+ name) e)
  end.

(** The wallet the store holds under the entry [name] of [dir], in the
    words of the specification: a record file that carries a mnemonic
    phrase stands for the wallet re-derived from that phrase; any other
    entry stands for none. *)
Definition recovered (f : list (string * entry)) (dir name : string)
    : option HDNodeWallet.t :=
  if endsWith name ".json" then
    match lookup_path f (dir +:+ "/" +:+ name) with
    | Some (File content) =>
      match JSON_parse content with
      | Some (JObject props) =>
        match object_get props "phrase" with
        | Some (JString p) => fromPhrase p
        | _ => None
        end
      | _ => None
      end
    | _ => None
    end
  else None.

End Notions.

(** ** A two-wallet instance of the SDK interface

    It derives one of two fixed wallets from the parity of the entropy
    and recovers them from their phrases; the functions above are run
    with it on concrete worlds. *)

Module Demo.

Definition alice_phrase : string :=
  "test test test test test test test test test test test junk".

Definition bob_phrase : string :=
  "abandon abandon abandon abandon abandon abandon abandon abandon abandon abandon abandon about".

Definition alice : HDNodeWallet.t :=
  {| HDNodeWallet.address := "0xf39Fd6e51aad88F6F4ce6aB8827279cffFb92266";
     HDNodeWallet.privateKey :=
       "0xac0974bec39a17e36ba4a6b4d238ff944bacb478cbed5efcae784d7bf4f2ff80";
     HDNodeWallet.publicKey :=
       "0x038318535b54105d4a7aae60c08fc45f9687181b4fdfc625bd1a753fa7397fed75";
     HDNodeWallet.mnemonic := Some {| Mnemonic.phrase := alice_phrase |} |}.

Definition bob : HDNodeWallet.t :=
  {| HDNodeWallet.address := "0x9858EfFD232B4033E47d90003D41EC34EcaEda94";
     HDNodeWallet.privateKey :=
       "0x1ab42cc412b618bdea3a599e3c9bae199ebf030895b039e9db1e30dafb12b727";
     HDNodeWallet.publicKey :=
       "0x0237b0bb7a8288d38ed49a524b5dc98cff3eb5ca824c9f9dc0dfdb3d9cd600f299";
     HDNodeWallet.mnemonic := Some {| Mnemonic.phrase := bob_phrase |} |}.

Definition from_entropy (e : Entropy) : HDNodeWallet.t :=
  if N.even e then alice else bob.

Definition from_phrase (p : string) : option HDNodeWallet.t :=
  if String.eqb p alice_phrase then Some alice
  else if String.eqb p bob_phrase then Some bob
  else None.

Definition parse_ether (amount : string) : option Z :=
  if String.eqb amount "0.1" then Some (10 ^ 17)%Z else None.

Definition from_entropy_from_phrase (e : Entropy) :
    ∃ m : Mnemonic.t,
      HDNodeWallet.mnemonic (from_entropy e) = Some m ∧
      from_phrase (Mnemonic.phrase m) = Some (from_entropy e) :=
  match N.even e as b return
    ∃ m : Mnemonic.t,
      HDNodeWallet.mnemonic (if b then alice else bob) = Some m ∧
      from_phrase (Mnemonic.phrase m) = Some (if b then alice else bob)
  with
  | true => ex_intro _ {| Mnemonic.phrase := alice_phrase |} (conj eq_refl eq_refl)
  | false => ex_intro _ {| Mnemonic.phrase := bob_phrase |} (conj eq_refl eq_refl)
  end.

Definition sdk : Ethers :=
  {| createRandom := from_entropy;
     fromPhrase := from_phrase;
     parseEther := parse_ether;
     fromPhrase_empty := eq_refl;
     createRandom_fromPhrase := from_entropy_from_phrase |}.

(** A record under Alice's address that carries Bob's phrase. *)
Definition mallory : HDNodeWallet.t :=
  {| HDNodeWallet.address := HDNodeWallet.address alice;
     HDNodeWallet.privateKey :=
       "0x0000000000000000000000000000000000000000000000000000000000000001";
     HDNodeWallet.publicKey :=
       "0x0279be667ef9dcbbac55a06295ce870b07029bfcdb2dce28d959f2815b16f81798";
     HDNodeWallet.mnemonic := Some {| Mnemonic.phrase := bob_phrase |} |}.

(** A wallet without a mnemonic: its record has no [phrase]. *)
Definition carol : HDNodeWallet.t :=
  {| HDNodeWallet.address := "0x70997970C51812dc3A010C7d01b50e0d17dc79C8";
     HDNodeWallet.privateKey :=
       "0x59c6995e998f97a5a0044966f0945389dc9e86dae88c7a8412f4603b6b78690d";
     HDNodeWallet.publicKey :=
       "0x02ba5734d8f7091719471e7f7ed6b9df170dc70cc661ca05e688601ad984f068b0";
     HDNodeWallet.mnemonic := None |}.

(** A record that differs from Alice's in everything but the phrase. *)
Definition eve : HDNodeWallet.t :=
  {| HDNodeWallet.address := "0x3C44CdDdB6a900fa2b585dd299e03d12FA4293BC";
     HDNodeWallet.privateKey :=
       "0x5de4111afa1a4b94908f83103eb1f1706367c2e68ca870fc3fb9a804cdab365a";
     HDNodeWallet.publicKey :=
       "0x039d9031e97dd78ff8c15aa86939de9b1e791066a0224e331bc962a2099a7b1f04";
     HDNodeWallet.mnemonic := Some {| Mnemonic.phrase := alice_phrase |} |}.

Definition rpc_node : Node :=
  {| getTransactionCount := λ _ _, Return 7%Z;
     getFeeData := Return {| gasPrice := Some 20000000000%Z |};
     wait := λ _, Return (Some {| blockNumber := 1%Z |}) |}.

(** A world whose working directory holds nothing yet. *)
Definition fresh : world :=
  {| files := [(".", Directory)];
     console := [];
     random := N.of_nat;
     env := {[ "PROVIDER_URL" := "http://127.0.0.1:8545";
               "TEST_WALLET_ADDRESS" := HDNodeWallet.address alice;
               "TEST_RECIPIENT_ADDRESS" := HDNodeWallet.address bob ]};
     node := rpc_node;
     calls := [] |}.

(** The world [m] leaves behind when started in [σ]. *)
Definition after {A : Type} (m : M A) (σ : world) : world := (m σ).2.

(** Two generated wallets, saved. *)
Definition created : world := after (createWallets (H := sdk) 2) fresh.
Definition saved : world := after (saveWallets [alice; bob] "./wallets") created.

(** Alice's record, then Mallory's under the same address. *)
Definition overwritten : world :=
  after (saveWallets [alice; mallory] "./wallets") fresh.

Definition record_path (w : HDNodeWallet.t) : string :=
  wallet_path "./wallets" (HDNodeWallet.address w).

Definition record_file (w : HDNodeWallet.t) : entry :=
  File (JSON_stringify (getWalletData w)).

(** A store with Alice's record, a record without phrase and a file that
    is not JSON. *)
Definition mixed : world :=
  set_files [(".", Directory); ("./wallets", Directory);
             (record_path carol, record_file carol);
             (record_path alice, record_file alice);
             ("./wallets/notes.json", File "{ not json")] fresh.

(** A store with Alice's record and a file that is not JSON. *)
Definition corrupt : world :=
  set_files [(".", Directory); ("./wallets", Directory);
             ("./wallets/notes.json", File "{ not json");
             (record_path alice, record_file alice)] fresh.

(** A record whose phrase no wallet derives from. *)
Definition dave : HDNodeWallet.t :=
  {| HDNodeWallet.address := "0x90F79bf6EB2c4f870365E785982E1f101E93b906";
     HDNodeWallet.privateKey :=
       "0x7c852118294e51e653712a81e05800f419141751be58f605c371e15141b007a6";
     HDNodeWallet.publicKey :=
       "0x0220b871f3ced029e14472ec4ebc3c0448164942b123aa6af91a3386c1c403e0eb";
     HDNodeWallet.mnemonic := Some {| Mnemonic.phrase := "not a mnemonic" |} |}.

(** A store in which a directory sits at the record path of Bob. *)
Definition blocked : world :=
  set_files [(".", Directory); ("./wallets", Directory);
             (record_path bob, Directory)] fresh.

(** A store with Dave's record only. *)
Definition unusable : world :=
  set_files [(".", Directory); ("./wallets", Directory);
             (record_path dave, record_file dave)] fresh.

(** The saved store, with a provider configured and nothing else. *)
Definition unset : world :=
  {| files := files saved;
     console := [];
     random := N.of_nat;
     env := {[ "PROVIDER_URL" := "http://127.0.0.1:8545" ]};
     node := rpc_node;
     calls := [] |}.

End Demo.
(** * Properties *)

(** ** Strings *)

Lemma append_String (c : ascii) (a b : string) :
  String c a +:+ b = String c (a +:+ b).
Proof. reflexivity. Qed.

Lemma append_empty_l (a : string) : "" +:+ a = a.
Proof. reflexivity. Qed.

Lemma append_assoc (a b c : string) : (a +:+ b) +:+ c = a +:+ (b +:+ c).
Proof.
  induction a as [|x a IH]; [done |].
  by rewrite !append_String, IH.
Qed.

Lemma length_append (a b : string) :
  String.length (a +:+ b) = String.length a + String.length b.
Proof.
  induction a as [|x a IH]; [done |].
  rewrite append_String. simpl. by rewrite IH.
Qed.

Lemma append_inj_r (a b c : string) : a +:+ c = b +:+ c → a = b.
Proof.
  revert b. induction a as [|x a IH]; intros [|y b] Heq.
  - done.
  - apply (f_equal String.length) in Heq.
    rewrite append_String, append_empty_l in Heq. simpl in Heq.
    rewrite length_append in Heq. lia.
  - apply (f_equal String.length) in Heq.
    rewrite append_String, append_empty_l in Heq. simpl in Heq.
    rewrite length_append in Heq. lia.
  - rewrite !append_String in Heq.
    injection Heq as -> Heq. f_equal. by apply IH.
Qed.

Lemma endsWith_spec (s suffix : string) :
  endsWith s suffix = true ↔ ∃ prefix : string, s = prefix +:+ suffix.
Proof.
  split.
  - induction s as [|c s IH]; cbn [endsWith].
    + destruct (String.eqb_spec "" suffix) as [<-|]; [|done]. by exists "".
    + destruct (String.eqb_spec (String c s) suffix) as [<-|]; [by exists "" |].
      intros Hs. destruct (IH Hs) as [prefix ->]. by exists (String c prefix).
  - intros [prefix ->]. induction prefix as [|c prefix IH].
    + rewrite append_empty_l. destruct suffix; cbn [endsWith];
        by rewrite String.eqb_refl.
    + rewrite append_String. cbn [endsWith]. rewrite IH.
      by destruct (String.eqb _ _).
Qed.

(** ** [JSON.parse] reads back what [JSON.stringify] writes *)

Lemma parse_chars_quote_char (c : ascii) (r : string) :
  parse_chars (quote_char c +:+ r) = prepend (str1 c) (parse_chars r).
Proof.
  destruct c as [[|] [|] [|] [|] [|] [|] [|] [|]]; reflexivity.
Qed.

Lemma parse_chars_quote_chars (s rest : string) :
  parse_chars (quote_chars s +:+ String dquote rest) = Some (s, rest).
Proof.
  induction s as [|c s IH]; [done |].
  cbn [quote_chars].
  by rewrite append_assoc, parse_chars_quote_char, IH.
Qed.

Create Rewrite HintDb strings.
#[local] Hint Rewrite append_assoc append_String append_empty_l : strings.

Ltac normalise_strings :=
  unfold quote, str1; autorewrite with strings.

Lemma parse_value_string (fuel : nat) (s rest : string) :
  parse_value (S fuel) (String dquote (quote_chars s +:+ String dquote rest)) =
  Some (JString s, rest).
Proof. simpl. by rewrite parse_chars_quote_chars. Qed.

Lemma parse_value_space (fuel : nat) (s : string) :
  parse_value (S fuel) (String " " s) = parse_value (S fuel) s.
Proof. reflexivity. Qed.

Lemma parse_member_step (fuel : nat) (kv : string * string) (rest : string) :
  parse_members (S (S fuel)) (stringify_member kv +:+ rest) =
  match skip_ws rest with
  | EmptyString => None
  | String c r =>
    if Ascii.eqb c "," then
      match parse_members (S fuel) r with
      | Some (more, r') => Some ((kv.1, JString kv.2) :: more, r')
      | None => None
      end
    else if Ascii.eqb c "}" then Some ([(kv.1, JString kv.2)], r)
    else None
  end.
Proof.
  destruct kv as [k v]. unfold stringify_member.
  normalise_strings.
  remember (S fuel) as f eqn:Hf.
  simpl. rewrite parse_chars_quote_chars. simpl.
  subst f. rewrite parse_value_space, parse_value_string. reflexivity.
Qed.

Lemma stringify_members_cons (kv kv' : string * string) (kvs : list (string * string)) :
  stringify_members (kv :: kv' :: kvs) =
  stringify_member kv +:+ String "," (String newline (stringify_members (kv' :: kvs))).
Proof. reflexivity. Qed.

Lemma parse_members_newline (fuel : nat) (s : string) :
  parse_members (S fuel) (String newline s) = parse_members (S fuel) s.
Proof. reflexivity. Qed.

Lemma parse_members_stringify (kvs : list (string * string)) :
  kvs ≠ [] →
  ∀ (fuel : nat) (rest : string),
    length kvs ≤ fuel →
    parse_members (S fuel) (stringify_members kvs +:+ String newline (String "}" rest)) =
    Some (string_props kvs, rest).
Proof.
  induction kvs as [|kv kvs IH]; [done |]. intros _ fuel rest Hfuel.
  destruct fuel as [|fuel]; [simpl in Hfuel; lia |].
  destruct kvs as [|kv' kvs].
  - cbn [stringify_members]. by rewrite parse_member_step.
  - rewrite stringify_members_cons, append_assoc, parse_member_step.
    rewrite !append_String.
    change (skip_ws (String "," ?s)) with (String "," s).
    cbn [Ascii.eqb Bool.eqb].
    rewrite parse_members_newline, IH; [done | done | simpl in *; lia].
Qed.

Lemma length_stringify_members (kvs : list (string * string)) :
  length kvs ≤ String.length (stringify_members kvs).
Proof.
  induction kvs as [|kv kvs IH]; [done |].
  destruct kvs as [|kv' kvs].
  - destruct kv as [k v]. cbn [stringify_members]. unfold stringify_member.
    rewrite length_append. simpl. lia.
  - rewrite stringify_members_cons, length_append.
    change (String.length (String "," (String newline ?s)))
      with (S (S (String.length s))).
    cbn [length] in *. lia.
Qed.

Lemma stringify_members_head (kv : string * string) (kvs : list (string * string))
    (rest : string) :
  ∃ tail : string,
    stringify_members (kv :: kvs) +:+ rest = String " " (String " " (String dquote tail)).
Proof.
  destruct kvs as [|kv' kvs].
  - cbn [stringify_members]. unfold stringify_member.
    normalise_strings. eauto.
  - rewrite stringify_members_cons. unfold stringify_member.
    normalise_strings. eauto.
Qed.

Lemma parse_value_object (fuel : nat) (text : string) (tail : string) :
  text = String " " (String " " (String dquote tail)) →
  parse_value (S fuel) (String "{" (String newline text)) =
  match parse_members fuel text with
  | Some (props, rest) => Some (JObject props, rest)
  | None => None
  end.
Proof.
  intros ->. destruct fuel as [|fuel]; reflexivity.
Qed.

Lemma JSON_parse_stringify_fields (kvs : list (string * string)) :
  JSON_parse (JSON_stringify_fields kvs) = Some (JObject (string_props kvs)).
Proof.
  destruct kvs as [|kv kvs]; [done |].
  unfold JSON_parse, JSON_stringify_fields.
  destruct (stringify_members_head kv kvs (String newline "}")) as [tail Htail].
  rewrite (parse_value_object _ _ _ Htail).
  pose proof (length_stringify_members (kv :: kvs)) as Hlen.
  simpl String.length. rewrite length_append.
  replace (String.length (stringify_members (kv :: kvs)) +
           String.length (String newline "}"))
    with (S (S (String.length (stringify_members (kv :: kvs)))))
    by (simpl; lia).
  rewrite parse_members_stringify; [done | done |].
  simpl in *. lia.
Qed.

(** ** The fuel of the parser is never exhausted *)

Lemma skip_ws_length (s : string) : String.length (skip_ws s) ≤ String.length s.
Proof.
  induction s as [|c s IH]; [done |]. cbn [skip_ws].
  destruct (is_ws c); simpl; lia.
Qed.

Lemma skip_ws_String (s r : string) (c : ascii) :
  skip_ws s = String c r → String.length r < String.length s.
Proof.
  intros Hs. pose proof (skip_ws_length s) as Hl. rewrite Hs in Hl.
  simpl in Hl. lia.
Qed.

Lemma prepend_Some (p : string) (x : option (string * string)) (str r : string) :
  prepend p x = Some (str, r) → ∃ s' : string, x = Some (s', r).
Proof. destruct x as [[s' r']|]; [|done]. intros [= _ ->]. by eexists. Qed.

Lemma parse_chars_length_aux (n : nat) :
  ∀ s str r : string,
    String.length s ≤ n → parse_chars s = Some (str, r) →
    String.length r < String.length s.
Proof.
  induction n as [|n IH]; intros s str r Hn Hp.
  - destruct s; [done | simpl in Hn; lia].
  - destruct s as [|c s]; [done |]. cbn [parse_chars] in Hp. simpl in Hn.
    assert (Hrec : ∀ (p t : string),
               String.length t ≤ String.length s →
               prepend p (parse_chars t) = Some (str, r) →
               String.length r < String.length (String c s)).
    { intros p t Ht Hpre. apply prepend_Some in Hpre as [s' Hs'].
      apply IH in Hs'; [simpl; lia | lia]. }
    destruct (Ascii.eqb c dquote); [injection Hp as _ <-; simpl; lia |].
    destruct (Ascii.eqb c backslash).
    2: { destruct (N_of_ascii c <? 32)%N; [done |]. by eapply Hrec. }
    destruct s as [|e r0]; [done |].
    destruct (unescape e); [eapply Hrec; [|done]; simpl; lia |].
    destruct (Ascii.eqb e "u"); [|done].
    destruct r0 as [|h1 [|h2 [|h3 [|h4 r1]]]]; try done.
    destruct (hex4 h1 h2 h3 h4) as [u|]; [|done].
    destruct (is_high_surrogate u); [|eapply Hrec; [|done]; simpl; lia].
    destruct r1 as [|b1 [|b2 [|l1 [|l2 [|l3 [|l4 r2]]]]]];
      try (eapply Hrec; [|done]; simpl; lia).
    destruct (hex4 l1 l2 l3 l4) as [lo|];
      [|eapply Hrec; [|done]; simpl; lia].
    destruct (_ && _); (eapply Hrec; [|done]; simpl; lia).
Qed.

Lemma parse_chars_length (s str r : string) :
  parse_chars s = Some (str, r) → String.length r < String.length s.
Proof. by apply (parse_chars_length_aux (String.length s)). Qed.

Lemma span_digits_length (s d r : string) :
  span_digits s = (d, r) → String.length r ≤ String.length s.
Proof.
  revert d r. induction s as [|c s IH]; intros d r Hs; cbn [span_digits] in Hs.
  - by injection Hs as <- <-.
  - destruct (is_digit c).
    + destruct (span_digits s) as [d' r'] eqn:Hd. injection Hs as <- <-.
      specialize (IH _ _ eq_refl). simpl. lia.
    + by injection Hs as <- <-.
Qed.

Lemma span_digits_nonempty (s r : string) (c : ascii) (d : string) :
  span_digits s = (String c d, r) → String.length r < String.length s.
Proof.
  destruct s as [|c0 s]; cbn [span_digits]; [done |].
  destruct (is_digit c0); [|done].
  destruct (span_digits s) as [d' r'] eqn:Hd. intros [= _ _ <-].
  apply span_digits_length in Hd. simpl. lia.
Qed.

Lemma parse_number_length (s : string) (v : json) (r : string) :
  parse_number s = Some (v, r) → String.length r < String.length s.
Proof.
  unfold parse_number.
  set (start := match s with
                | String c r0 => if Ascii.eqb c "-" then (true, r0) else (false, s)
                | EmptyString => (false, s)
                end).
  assert (Hstart : String.length start.2 ≤ String.length s).
  { subst start. destruct s as [|c r0]; [done |].
    destruct (Ascii.eqb c "-"); simpl; lia. }
  destruct start as [neg s1]. cbn [snd] in Hstart.
  destruct (parse_int_part s1) as [[ip s2]|] eqn:Hint; [|done].
  assert (H2 : String.length s2 < String.length s1).
  { unfold parse_int_part in Hint. destruct s1 as [|c r1]; [done |].
    destruct (Ascii.eqb c "0"); [injection Hint as _ <-; simpl; lia |].
    destruct (is_digit c) eqn:Hc; [|done]. injection Hint as Hint.
    cbn [span_digits] in Hint. rewrite Hc in Hint.
    destruct (span_digits r1) as [d' r'] eqn:Hd. injection Hint as _ <-.
    apply span_digits_length in Hd. simpl. lia. }
  destruct (parse_frac_part s2) as [[fp s3]|] eqn:Hfrac; [|done].
  assert (H3 : String.length s3 ≤ String.length s2).
  { unfold parse_frac_part in Hfrac. destruct s2 as [|c r2]; [by injection Hfrac as _ <- |].
    destruct (Ascii.eqb c "."); [|by injection Hfrac as _ <-].
    destruct (span_digits r2) as [[|c' d'] r'] eqn:Hd; [done |].
    injection Hfrac as _ <-. apply span_digits_length in Hd. simpl. lia. }
  destruct (parse_exp_part s3) as [[e s4]|] eqn:Hexp; [|done].
  assert (H4 : String.length s4 ≤ String.length s3).
  { assert (Hdigits : ∀ b t, parse_exp_digits b t = Some (e, s4) →
                             String.length s4 ≤ String.length t).
    { intros b t. unfold parse_exp_digits.
      destruct (span_digits t) as [[|c' d'] r'] eqn:Hd; [done |].
      intros [= _ <-]. by apply span_digits_length in Hd. }
    unfold parse_exp_part in Hexp. destruct s3 as [|c r3]; [by injection Hexp as _ <- |].
    destruct (_ || _); [|by injection Hexp as _ <-].
    destruct r3 as [|sg r']; [done |].
    destruct (Ascii.eqb sg "-"); [apply Hdigits in Hexp; simpl in *; lia |].
    destruct (Ascii.eqb sg "+"); apply Hdigits in Hexp; simpl in *; lia. }
  intros [= _ <-]. lia.
Qed.

Lemma strip_prefix_length (p s r : string) :
  strip_prefix p s = Some r → String.length r ≤ String.length s.
Proof.
  revert s. induction p as [|c p IH]; intros s; cbn [strip_prefix].
  - by intros [= ->].
  - destruct s as [|d s]; [done |]. destruct (Ascii.eqb c d); [|done].
    intros Hp. apply IH in Hp. simpl. lia.
Qed.

Lemma parse_literal_length (lit : string) (v x : json) (s r : string) :
  parse_literal lit v s = Some (x, r) → String.length r ≤ String.length s.
Proof.
  unfold parse_literal. destruct (strip_prefix lit s) as [rest|] eqn:Hp; [|done].
  intros [= _ <-]. by eapply strip_prefix_length.
Qed.

Lemma parse_value_fuel (n : nat) :
  fuel_enough parse_members n → fuel_enough parse_elements n →
  fuel_enough parse_value (S n).
Proof.
  intros IHm IHe s x r Hp. cbn [parse_value] in Hp.
  destruct (skip_ws s) as [|c r0] eqn:Hs; [done |].
  pose proof (skip_ws_String _ _ _ Hs) as Hr0.
  assert (Hleaf : ∀ y r',
             String.length r' < String.length s →
             (∀ m, parse_value (S m) s = Some (y, r')) →
             String.length r' < String.length s ∧
             ∀ fuel', String.length s - String.length r' ≤ fuel' →
                      parse_value fuel' s = Some (y, r')).
  { intros y r' Hlt Hall. split; [done |]. intros [|m] Hm; [lia | apply Hall]. }
  destruct (Ascii.eqb c "{") eqn:Hc1.
  { destruct (skip_ws r0) as [|c' r'] eqn:Hs'; [done |].
    pose proof (skip_ws_String _ _ _ Hs') as Hr'.
    destruct (Ascii.eqb c' "}") eqn:Hc'.
    - injection Hp as <- <-. apply Hleaf; [lia |].
      intros m. cbn [parse_value]. by rewrite Hs, Hc1, Hs', Hc'.
    - destruct (parse_members n r0) as [[props rest]|] eqn:Hm; [|done].
      injection Hp as <- <-. destruct (IHm _ _ _ Hm) as [Hlt Hmore].
      split; [lia |]. intros [|m] Hfuel; [lia |].
      cbn [parse_value]. rewrite Hs, Hc1, Hs', Hc', Hmore; [done | lia]. }
  destruct (Ascii.eqb c "[") eqn:Hc2.
  { destruct (skip_ws r0) as [|c' r'] eqn:Hs'; [done |].
    pose proof (skip_ws_String _ _ _ Hs') as Hr'.
    destruct (Ascii.eqb c' "]") eqn:Hc'.
    - injection Hp as <- <-. apply Hleaf; [lia |].
      intros m. cbn [parse_value]. by rewrite Hs, Hc1, Hc2, Hs', Hc'.
    - destruct (parse_elements n r0) as [[elems rest]|] eqn:Hm; [|done].
      injection Hp as <- <-. destruct (IHe _ _ _ Hm) as [Hlt Hmore].
      split; [lia |]. intros [|m] Hfuel; [lia |].
      cbn [parse_value]. rewrite Hs, Hc1, Hc2, Hs', Hc', Hmore; [done | lia]. }
  destruct (Ascii.eqb c dquote) eqn:Hc3.
  { destruct (parse_chars r0) as [[str rest]|] eqn:Hstr; [|done].
    injection Hp as <- <-. apply parse_chars_length in Hstr as Hlt.
    apply Hleaf; [lia |].
    intros m. cbn [parse_value]. by rewrite Hs, Hc1, Hc2, Hc3, Hstr. }
  destruct (Ascii.eqb c "t") eqn:Hc4.
  { apply parse_literal_length in Hp as Hlt. apply Hleaf; [lia |].
    intros m. cbn [parse_value]. by rewrite Hs, Hc1, Hc2, Hc3, Hc4. }
  destruct (Ascii.eqb c "f") eqn:Hc5.
  { apply parse_literal_length in Hp as Hlt. apply Hleaf; [lia |].
    intros m. cbn [parse_value]. by rewrite Hs, Hc1, Hc2, Hc3, Hc4, Hc5. }
  destruct (Ascii.eqb c "n") eqn:Hc6.
  { apply parse_literal_length in Hp as Hlt. apply Hleaf; [lia |].
    intros m. cbn [parse_value]. by rewrite Hs, Hc1, Hc2, Hc3, Hc4, Hc5, Hc6. }
  apply parse_number_length in Hp as Hlt. simpl in Hlt.
  apply Hleaf; [lia |].
  intros m. cbn [parse_value]. by rewrite Hs, Hc1, Hc2, Hc3, Hc4, Hc5, Hc6.
Qed.

Lemma parse_members_fuel (n : nat) :
  fuel_enough parse_value n → fuel_enough parse_members n →
  fuel_enough parse_members (S n).
Proof.
  intros IHv IHm s x r Hp. cbn [parse_members] in Hp.
  destruct (skip_ws s) as [|c r0] eqn:Hs; [done |].
  pose proof (skip_ws_String _ _ _ Hs) as Hr0.
  destruct (Ascii.eqb c dquote) eqn:Hc; [|done].
  destruct (parse_chars r0) as [[key r1]|] eqn:Hkey; [|done].
  apply parse_chars_length in Hkey as Hr1.
  destruct (skip_ws r1) as [|c1 r2] eqn:Hs1; [done |].
  pose proof (skip_ws_String _ _ _ Hs1) as Hr2.
  destruct (Ascii.eqb c1 ":") eqn:Hc1; [|done].
  destruct (parse_value n r2) as [[v r3]|] eqn:Hv; [|done].
  destruct (IHv _ _ _ Hv) as [Hr3 Hvmore].
  destruct (skip_ws r3) as [|c3 r4] eqn:Hs3; [done |].
  pose proof (skip_ws_String _ _ _ Hs3) as Hr4.
  destruct (Ascii.eqb c3 ",") eqn:Hc3.
  - destruct (parse_members n r4) as [[rest r5]|] eqn:Hm; [|done].
    injection Hp as <- <-. destruct (IHm _ _ _ Hm) as [Hr5 Hmmore].
    split; [lia |]. intros [|m] Hfuel; [lia |].
    cbn [parse_members].
    rewrite Hs, Hc, Hkey, Hs1, Hc1, Hvmore, Hs3, Hc3, Hmmore; [done | lia | lia].
  - destruct (Ascii.eqb c3 "}") eqn:Hc3'; [|done].
    injection Hp as <- <-.
    split; [lia |]. intros [|m] Hfuel; [lia |].
    cbn [parse_members].
    rewrite Hs, Hc, Hkey, Hs1, Hc1, Hvmore, Hs3, Hc3, Hc3'; [done | lia].
Qed.

Lemma parse_elements_fuel (n : nat) :
  fuel_enough parse_value n → fuel_enough parse_elements n →
  fuel_enough parse_elements (S n).
Proof.
  intros IHv IHe s x r Hp. cbn [parse_elements] in Hp.
  destruct (parse_value n s) as [[v r1]|] eqn:Hv; [|done].
  destruct (IHv _ _ _ Hv) as [Hr1 Hvmore].
  destruct (skip_ws r1) as [|c r2] eqn:Hs1; [done |].
  pose proof (skip_ws_String _ _ _ Hs1) as Hr2.
  destruct (Ascii.eqb c ",") eqn:Hc.
  - destruct (parse_elements n r2) as [[rest r3]|] eqn:He; [|done].
    injection Hp as <- <-. destruct (IHe _ _ _ He) as [Hr3 Hemore].
    split; [lia |]. intros [|m] Hfuel; [lia |].
    cbn [parse_elements]. rewrite Hvmore, Hs1, Hc, Hemore; [done | lia | lia].
  - destruct (Ascii.eqb c "]") eqn:Hc'; [|done].
    injection Hp as <- <-.
    split; [lia |]. intros [|m] Hfuel; [lia |].
    cbn [parse_elements]. rewrite Hvmore, Hs1, Hc, Hc'; [done | lia].
Qed.

Lemma parse_fuel_enough (n : nat) :
  fuel_enough parse_value n ∧ fuel_enough parse_members n ∧
  fuel_enough parse_elements n.
Proof.
  induction n as [|n (IHv & IHm & IHe)].
  - split; [|split]; intros s0 x0 r0 Hp; discriminate Hp.
  - split; [by apply parse_value_fuel |].
    split; [by apply parse_members_fuel | by apply parse_elements_fuel].
Qed.

(** Whatever fuel lets the parser read a value, the fuel [JSON_parse]
    gives it does. *)
Lemma JSON_parse_fuel (fuel : nat) (text : string) (v : json) (rest : string) :
  parse_value fuel text = Some (v, rest) →
  skip_ws rest = EmptyString →
  JSON_parse text = Some v.
Proof.
  intros Hp Hrest. unfold JSON_parse.
  destruct (parse_fuel_enough fuel) as (Hv & _ & _).
  destruct (Hv _ _ _ Hp) as [_ Hmore].
  rewrite Hmore; [by rewrite Hrest | lia].
Qed.

(** ** The file system *)

Lemma lookup_store_eq (f : list (string * entry)) (p : string) (e : entry) :
  lookup_path (store_path f p e) p = Some e.
Proof.
  induction f as [|[q e'] f IH]; simpl.
  - by rewrite String.eqb_refl.
  - destruct (String.eqb q p) eqn:Hq; simpl; by rewrite Hq.
Qed.

Lemma lookup_store_ne (f : list (string * entry)) (p q : string) (e : entry) :
  p ≠ q → lookup_path (store_path f p e) q = lookup_path f q.
Proof.
  intros Hne. induction f as [|[r e'] f IH]; simpl.
  - by rewrite (proj2 (String.eqb_neq p q)).
  - destruct (String.eqb r p) eqn:Hr; simpl.
    + apply String.eqb_eq in Hr as ->.
      by rewrite (proj2 (String.eqb_neq p q)).
    + by rewrite IH.
Qed.

Lemma store_path_keys (f : list (string * entry)) (p : string) (e : entry) :
  NoDup f.*1 → NoDup (store_path f p e).*1.
Proof.
  induction f as [|[q e'] f IH]; intros Hnd.
  - apply NoDup_singleton.
  - cbn [store_path]. destruct (String.eqb_spec q p) as [->|Hne]; [done |].
    rewrite fmap_cons in *. apply NoDup_cons in Hnd as [Hq Hnd].
    apply NoDup_cons. split; [|by apply IH].
    intros Hin. apply Hq. clear IH Hnd Hq. cbn [fst] in *.
    induction f as [|[r e0] f IH]; cbn [store_path] in Hin.
    + apply list_elem_of_singleton in Hin. by subst.
    + destruct (String.eqb r p); [done |].
      rewrite fmap_cons in *. cbn [fst] in *.
      apply elem_of_cons in Hin as [->|Hin]; [by left | right; by apply IH].
Qed.

Lemma children_store (f : list (string * entry)) (p d : string) (e e' : entry) :
  children (store_path f p e) d = children (store_path f p e') d.
Proof.
  induction f as [|[q e0] f IH]; simpl; [done |].
  destruct (String.eqb q p); simpl; [done |].
  by rewrite IH.
Qed.

Lemma wallet_path_inj (d a b : string) : wallet_path d a = wallet_path d b → a = b.
Proof.
  unfold wallet_path. intros Heq.
  apply (inj (String.append d)) in Heq.
  rewrite !append_String, !append_empty_l in Heq.
  injection Heq as Heq. by apply append_inj_r in Heq.
Qed.

Lemma split_path_Some (p d name : string) :
  split_path p = Some (d, name) →
  p = d +:+ "/" +:+ name ∧ split_path name = None.
Proof.
  revert d. induction p as [|c p IH]; intros d; cbn [split_path]; [done |].
  destruct (split_path p) as [[d' name']|] eqn:Hp.
  - intros [= <- <-]. destruct (IH d' eq_refl) as [-> Hname].
    by rewrite append_String.
  - destruct (Ascii.eqb_spec c "/") as [->|]; [|done].
    intros [= <- <-]. by rewrite append_empty_l.
Qed.

Lemma split_path_join (d name : string) :
  split_path name = None →
  split_path (d +:+ "/" +:+ name) = Some (d, name).
Proof.
  intros Hname. induction d as [|c d IH].
  - rewrite append_empty_l, append_String, append_empty_l.
    cbn [split_path]. by rewrite Hname.
  - rewrite append_String. cbn [split_path]. by rewrite IH.
Qed.

Lemma wallet_path_ne_dir (d a : string) : wallet_path d a ≠ d.
Proof.
  unfold wallet_path. intros Heq. apply (f_equal String.length) in Heq.
  rewrite length_append, append_String in Heq. simpl in Heq. lia.
Qed.

Lemma children_lookup (f : list (string * entry)) (d name : string) :
  name ∈ children f d → is_Some (lookup_path f (d +:+ "/" +:+ name)).
Proof.
  induction f as [|[q e] f IH]; cbn [children lookup_path].
  - by intros ?%elem_of_nil.
  - destruct (String.eqb_spec q (d +:+ "/" +:+ name)) as [->|Hq]; [by eexists |].
    destruct (split_path q) as [[d' name']|] eqn:Hs; [|done].
    destruct (String.eqb_spec d' d) as [->|]; [|done].
    intros [->|Hin]%elem_of_cons; [|by apply IH].
    apply split_path_Some in Hs as [-> _]. done.
Qed.

Lemma lookup_children (f : list (string * entry)) (d name : string) (e : entry) :
  lookup_path f (d +:+ "/" +:+ name) = Some e →
  split_path name = None →
  name ∈ children f d.
Proof.
  intros Hl Hname. induction f as [|[q e0] f IH]; cbn [children lookup_path] in *.
  - done.
  - destruct (String.eqb_spec q (d +:+ "/" +:+ name)) as [->|Hq].
    + rewrite (split_path_join _ _ Hname), String.eqb_refl. by left.
    + destruct (split_path q) as [[d' name']|]; [|by apply IH].
      destruct (String.eqb d' d); [right |]; by apply IH.
Qed.

Ltac unfold_M :=
  unfold fs_existsSync, fs_readFileSync, fs_readdirSync, fs_mkdirSync,
    fs_writeFileSync, JSON_parse_M, get_property, HDNodeWallet_fromPhrase,
    console_error, console_log, process_env, lift_option, try_catch, throw,
    mbind, M_bind, mret, M_ret in *.

Ltac run tac := unfold_M; repeat (progress (simpl; tac)).

Lemma set_console_nil (σ : world) : set_console (console σ ++ []) σ = σ.
Proof. destruct σ. unfold set_console. simpl. by rewrite app_nil_r. Qed.

Ltac simpl_world :=
  cbn [node calls console env files random
       set_console set_calls set_files set_random].

Section Store.
Context `{Ethers}.

Lemma loadWallet_missing (a d : string) (σ : world) :
  lookup_path (files σ) (wallet_path d a) = None →
  loadWallet a d σ = (Return None, σ).
Proof.
  unfold wallet_path, loadWallet. intros Hl. by run ltac:(rewrite ?Hl).
Qed.

Lemma loadWallet_unreadable (a d : string) (σ : world) :
  lookup_path (files σ) (wallet_path d a) = Some Directory →
  loadWallet a d σ =
  (Return None,
   log_failure (wallet_path d a) (FsError "EISDIR" (wallet_path d a)) σ).
Proof.
  unfold wallet_path, loadWallet. intros Hl. by run ltac:(rewrite ?Hl).
Qed.

Lemma loadWallet_unparsable (a d content : string) (σ : world) :
  lookup_path (files σ) (wallet_path d a) = Some (File content) →
  JSON_parse content = None →
  loadWallet a d σ = (Return None, log_failure (wallet_path d a) SyntaxError σ).
Proof.
  unfold wallet_path, loadWallet. intros Hl Hp. by run ltac:(rewrite ?Hl, ?Hp).
Qed.

Lemma loadWallet_parsed (a d content : string) (v : json) (σ : world) :
  lookup_path (files σ) (wallet_path d a) = Some (File content) →
  JSON_parse content = Some v →
  loadWallet a d σ =
  match recover v with
  | Return r => (Return r, σ)
  | Throw e => (Return None, log_failure (wallet_path d a) e σ)
  end.
Proof.
  unfold wallet_path, loadWallet. intros Hl Hp.
  run ltac:(rewrite ?Hl, ?Hp). unfold recover.
  destruct v as [| b | m e | s | elems | props]; try done.
  destruct (object_get props "phrase") as [[| b | m e | s | elems | props']|];
    simpl; try done.
  - by destruct b.
  - by destruct (number_truthy m e).
  - destruct (String.eqb s ""); simpl; [done |]. by destruct (fromPhrase s) as [[]|].
Qed.

(** *** Saving *)

Lemma writeFileSync_returns (p data : string) (σ σ' : world) :
  fs_writeFileSync p data σ = (Return tt, σ') →
  σ' = set_files (store_path (files σ) p (File data)) σ.
Proof.
  unfold fs_writeFileSync.
  destruct (lookup_path (files σ) p) as [[c|]|]; [congruence | congruence |].
  destruct (parent_error (files σ) p); congruence.
Qed.

Lemma forEach_save_lookup (dir : string) (ws : list HDNodeWallet.t) :
  ∀ σ σ' : world,
    forEach ws (save_one dir) σ = (Return tt, σ') →
    (∀ a : string,
        lookup_path (files σ') (wallet_path dir a) =
        match last_with_address ws a with
        | Some w => Some (File (JSON_stringify (getWalletData w)))
        | None => lookup_path (files σ) (wallet_path dir a)
        end).
Proof.
  induction ws as [|w ws IH]; intros σ σ' Hrun a.
  - cbn in Hrun. by injection Hrun as ->.
  - cbn [forEach] in Hrun. unfold mbind, M_bind in Hrun.
    destruct (save_one dir w σ) as [[[]|e] σ1] eqn:Hw; [|congruence].
    apply writeFileSync_returns in Hw.
    rewrite (IH _ _ Hrun a). cbn [last_with_address].
    destruct (last_with_address ws a) as [w'|]; [done |].
    subst σ1. cbn [files set_files].
    destruct (String.eqb_spec (HDNodeWallet.address w) a) as [->|Hne].
    + by rewrite lookup_store_eq.
    + rewrite lookup_store_ne; [done |].
      intros Heq. by apply wallet_path_inj in Heq.
Qed.

Lemma saveWallets_forEach (ws : list HDNodeWallet.t) (dir : string) (σ σ' : world) :
  saveWallets ws dir σ = (Return tt, σ') →
  ∃ σ0 : world,
    forEach ws (save_one dir) σ0 = (Return tt, σ') ∧
    ∀ a : string,
      lookup_path (files σ0) (wallet_path dir a) =
      lookup_path (files σ) (wallet_path dir a).
Proof.
  unfold saveWallets, fs_existsSync, fs_mkdirSync.
  unfold mbind at 1 2, M_bind at 1 2.
  destruct (lookup_path (files σ) dir) as [e|] eqn:Hd; cbn [negb].
  - intros Hrun. by exists σ.
  - rewrite Hd. destruct (parent_error (files σ) dir); [done |].
    intros Hrun. eexists. split; [exact Hrun |].
    intros a. cbn [files set_files]. apply lookup_store_ne.
    intros Heq. by apply (wallet_path_ne_dir dir a).
Qed.

Lemma save_one_returns (dir : string) (w : HDNodeWallet.t) (σ : world) :
  lookup_path (files σ) dir = Some Directory →
  can_save dir (files σ) w →
  save_one dir w σ =
  (Return tt,
   set_files (store_path (files σ) (wallet_path dir (HDNodeWallet.address w))
                (File (JSON_stringify (getWalletData w)))) σ).
Proof.
  intros Hd [Hname Hfree]. unfold save_one, fs_writeFileSync.
  destruct (lookup_path (files σ) (wallet_path dir _)) as [[c|]|]; [done | done |].
  unfold parent_error, wallet_path.
  by rewrite (split_path_join dir _ Hname), Hd.
Qed.

Lemma forEach_save_returns (dir : string) (ws : list HDNodeWallet.t) :
  ∀ σ : world,
    lookup_path (files σ) dir = Some Directory →
    Forall (can_save dir (files σ)) ws →
    ∃ σ' : world, forEach ws (save_one dir) σ = (Return tt, σ').
Proof.
  induction ws as [|w ws IH]; intros σ Hd Hall.
  - by exists σ.
  - apply Forall_cons in Hall as [Hw Hall].
    cbn [forEach]. unfold mbind, M_bind.
    rewrite (save_one_returns _ _ _ Hd Hw). apply IH; cbn [files set_files].
    + rewrite lookup_store_ne; [done | apply wallet_path_ne_dir].
    + eapply Forall_impl; [exact Hall |]. intros w' [Hname Hfree].
      split; [done |].
      destruct (decide (wallet_path dir (HDNodeWallet.address w) =
                        wallet_path dir (HDNodeWallet.address w'))) as [<-|Hne].
      * by rewrite lookup_store_eq.
      * by rewrite lookup_store_ne.
Qed.

(** [saveWallets] returns when the directory is there, or can be made,
    and every record can be written. *)
Lemma saveWallets_returns (ws : list HDNodeWallet.t) (dir : string) (σ : world) :
  lookup_path (files σ) dir = Some Directory ∨
  (lookup_path (files σ) dir = None ∧ parent_error (files σ) dir = None) →
  Forall (can_save dir (files σ)) ws →
  ∃ σ' : world, saveWallets ws dir σ = (Return tt, σ').
Proof.
  intros Hdir Hall. unfold saveWallets, fs_existsSync, fs_mkdirSync.
  unfold mbind at 1 2, M_bind at 1 2.
  destruct Hdir as [Hd | [Hd Hparent]]; rewrite Hd; cbn [negb].
  - by apply forEach_save_returns.
  - rewrite Hd, Hparent. apply forEach_save_returns; cbn [files set_files].
    + apply lookup_store_eq.
    + eapply Forall_impl; [exact Hall |]. intros w [Hname Hfree].
      split; [done |]. rewrite lookup_store_ne; [done |].
      intros Heq. by apply (wallet_path_ne_dir dir (HDNodeWallet.address w)).
Qed.

Lemma forEach_save_console (dir : string) (ws : list HDNodeWallet.t) :
  ∀ σ σ' : world,
    forEach ws (save_one dir) σ = (Return tt, σ') → console σ' = console σ.
Proof.
  induction ws as [|w ws IH]; intros σ σ' Hrun.
  - cbn in Hrun. by injection Hrun as ->.
  - cbn [forEach] in Hrun. unfold mbind, M_bind in Hrun.
    destruct (save_one dir w σ) as [[[]|e] σ1] eqn:Hw; [|congruence].
    apply writeFileSync_returns in Hw. rewrite (IH _ _ Hrun). by subst σ1.
Qed.

Lemma saveWallets_console (ws : list HDNodeWallet.t) (dir : string) (σ σ' : world) :
  saveWallets ws dir σ = (Return tt, σ') → console σ' = console σ.
Proof.
  unfold saveWallets, fs_existsSync, fs_mkdirSync.
  unfold mbind at 1 2, M_bind at 1 2.
  destruct (lookup_path (files σ) dir) as [e|] eqn:Hd; cbn [negb].
  - apply forEach_save_console.
  - rewrite Hd. destruct (parent_error (files σ) dir); [done |].
    intros Hrun. by rewrite (forEach_save_console _ _ _ _ Hrun).
Qed.
Lemma last_with_address_Some (ws : list HDNodeWallet.t) (a : string)
    (w : HDNodeWallet.t) :
  last_with_address ws a = Some w → HDNodeWallet.address w = a ∧ w ∈ ws.
Proof.
  induction ws as [|w0 ws IH]; [done |]. cbn [last_with_address].
  destruct (last_with_address ws a) as [w'|].
  - intros [= ->]. destruct IH as [? ?]; [done |]. split; [done | by right].
  - destruct (String.eqb_spec (HDNodeWallet.address w0) a) as [Ha|]; [|done].
    intros [= ->]. split; [done | by left].
Qed.

Lemma last_with_address_elem (ws : list HDNodeWallet.t) (w : HDNodeWallet.t) :
  w ∈ ws → is_Some (last_with_address ws (HDNodeWallet.address w)).
Proof.
  induction 1 as [w ws|w w0 ws Hin IH]; cbn [last_with_address].
  - destruct (last_with_address ws _); [done |].
    by rewrite String.eqb_refl.
  - destruct IH as [w' ->]. done.
Qed.

Lemma last_with_address_only (ws : list HDNodeWallet.t) (w : HDNodeWallet.t) :
  w ∈ ws →
  (∀ w2 : HDNodeWallet.t,
      w2 ∈ ws → HDNodeWallet.address w2 = HDNodeWallet.address w → w2 = w) →
  last_with_address ws (HDNodeWallet.address w) = Some w.
Proof.
  intros Hin Honly.
  destruct (last_with_address_elem ws w Hin) as [w' Hlast].
  rewrite Hlast. f_equal.
  apply last_with_address_Some in Hlast as [Haddr Hin'].
  by apply Honly.
Qed.

Lemma JSON_parse_stringify (d : WalletData.t) :
  JSON_parse (JSON_stringify d) = Some (WalletData_json d).
Proof. apply JSON_parse_stringify_fields. Qed.

Lemma object_get_WalletData (d : WalletData.t) :
  object_get (string_props (WalletData_fields d)) "address"
    = Some (JString (WalletData.address d)) ∧
  object_get (string_props (WalletData_fields d)) "phrase"
    = JString <$> WalletData.phrase d.
Proof. destruct d as [a sk pk [p|]]; done. Qed.

Lemma recover_WalletData (d : WalletData.t) :
  recover (WalletData_json d) =
  match WalletData.phrase d with
  | Some p =>
    if String.eqb p "" then Return None
    else match fromPhrase p with
         | Some w => Return (Some w)
         | None => Throw (SdkError "invalid mnemonic")
         end
  | None => Return None
  end.
Proof.
  unfold recover, WalletData_json.
  rewrite (proj2 (object_get_WalletData d)).
  by destruct (WalletData.phrase d).
Qed.

(** *** Generating *)

Lemma createWallets_loop_generated (n : nat) :
  ∀ (acc ws : list HDNodeWallet.t) (σ σ' : world),
    Forall generated acc →
    createWallets_loop n acc σ = (Return ws, σ') →
    Forall generated ws.
Proof.
  induction n as [|n IH]; intros acc ws σ σ' Hacc Hrun.
  - cbn in Hrun. by injection Hrun as <- _.
  - cbn in Hrun. eapply IH; [|exact Hrun].
    apply Forall_app. split; [done |]. apply Forall_singleton. by eexists.
Qed.

Lemma createWallets_loop_returns (n : nat) :
  ∀ (acc : list HDNodeWallet.t) (σ : world),
    ∃ (ws : list HDNodeWallet.t) (σ' : world),
      createWallets_loop n acc σ = (Return ws, σ') ∧
      length ws = length acc + n ∧ files σ' = files σ.
Proof.
  induction n as [|n IH]; intros acc σ.
  - exists acc, σ. split; [done |]. split; [lia | done].
  - cbn.
    destruct (IH (acc ++ [createRandom (random σ 0)])
                 (set_random (λ i, random σ (S i)) σ)) as (ws & σ' & Hrun & Hlen & Hf).
    exists ws, σ'. split; [done |]. rewrite length_app in Hlen. simpl in Hlen.
    split; [lia | done].
Qed.

Lemma createWallets_returns (walletCount : Z) (σ : world) :
  ∃ (wallets : list HDNodeWallet.t) (σ' : world),
    createWallets walletCount σ = (Return wallets, σ') ∧
    length wallets = Z.to_nat walletCount ∧
    Forall generated wallets ∧
    files σ' = files σ.
Proof.
  destruct (createWallets_loop_returns (Z.to_nat walletCount) [] σ)
    as (wallets & σ' & Hrun & Hlen & Hfiles).
  exists wallets, σ'. split; [done |]. split; [done |]. split; [|done].
  by eapply createWallets_loop_generated.
Qed.
Lemma generated_recoverable (w : HDNodeWallet.t) :
  generated w →
  ∃ m : Mnemonic.t,
    HDNodeWallet.mnemonic w = Some m ∧
    fromPhrase (Mnemonic.phrase m) = Some w ∧
    Mnemonic.phrase m ≠ "".
Proof.
  intros [e ->]. destruct (createRandom_fromPhrase e) as (m & Hm & Hp).
  exists m. split; [done |]. split; [done |].
  intros Hempty. rewrite Hempty, fromPhrase_empty in Hp. done.
Qed.

Lemma saveWallets_lookup_path (ws : list HDNodeWallet.t) (dir : string)
    (σ σ' : world) (a : string) :
  saveWallets ws dir σ = (Return tt, σ') →
  lookup_path (files σ') (wallet_path dir a) =
  match last_with_address ws a with
  | Some w => Some (File (JSON_stringify (getWalletData w)))
  | None => lookup_path (files σ) (wallet_path dir a)
  end.
Proof.
  intros Hsave. apply saveWallets_forEach in Hsave as (σ0 & Hrun & Hsame).
  rewrite (forEach_save_lookup _ _ _ _ Hrun). by rewrite Hsame.
Qed.

Lemma saveWallets_lookup (ws : list HDNodeWallet.t) (dir : string) (σ σ' : world)
    (w w' : HDNodeWallet.t) :
  saveWallets ws dir σ = (Return tt, σ') →
  last_with_address ws (HDNodeWallet.address w) = Some w' →
  lookup_path (files σ') (wallet_path dir (HDNodeWallet.address w)) =
  Some (File (JSON_stringify (getWalletData w'))).
Proof.
  intros Hsave Hlast. by rewrite (saveWallets_lookup_path _ _ _ _ _ Hsave), Hlast.
Qed.

Lemma loadWallet_saved (a dir : string) (w : HDNodeWallet.t) (σ : world) :
  lookup_path (files σ) (wallet_path dir a) =
    Some (File (JSON_stringify (getWalletData w))) →
  loadWallet a dir σ =
  match recover (WalletData_json (getWalletData w)) with
  | Return r => (Return r, σ)
  | Throw e => (Return None, log_failure (wallet_path dir a) e σ)
  end.
Proof.
  intros Hl. apply (loadWallet_parsed _ _ _ _ _ Hl), JSON_parse_stringify.
Qed.

(** C7. Store invariant and last-write-wins.  When [saveWallets] returns,
    the directory satisfies the store invariant if it did before, and
    nothing is logged.  Every wallet [w] of the sequence has a file
    [<address of w>.json] in the directory; it holds the record of the
    last wallet of the sequence with that address, whatever was there
    before, and the [address] field of that record is the address in the
    file name.  Looking the address up afterwards gives what it would
    give had that last wallet been saved alone. *)
Theorem saveWallets_store_invariant (ws : list HDNodeWallet.t) (dir : string)
    (σ σ' : world) :
  saveWallets ws dir σ = (Return tt, σ') →
  (store_invariant dir (files σ) → store_invariant dir (files σ')) ∧
  console σ' = console σ ∧
  ∀ w : HDNodeWallet.t,
    w ∈ ws →
    ∃ w_last : HDNodeWallet.t,
      last_with_address ws (HDNodeWallet.address w) = Some w_last ∧
      lookup_path (files σ') (dir +:+ "/" +:+ HDNodeWallet.address w +:+ ".json") =
        Some (File (JSON_stringify (getWalletData w_last))) ∧
      (∃ props : list (string * json),
          JSON_parse (JSON_stringify (getWalletData w_last)) = Some (JObject props) ∧
          object_get props "address" = Some (JString (HDNodeWallet.address w))) ∧
      (∀ σa σb : world,
          saveWallets [w_last] dir σa = (Return tt, σb) →
          (loadWallet (HDNodeWallet.address w) dir σ').1 =
          (loadWallet (HDNodeWallet.address w) dir σb).1).
Proof.
  intros Hsave. split; [|split; [by eapply saveWallets_console |]].
  - intros Hinv stem content.
    rewrite (saveWallets_lookup_path _ _ _ _ stem Hsave).
    destruct (last_with_address ws stem) as [w|] eqn:Hlast; [|apply Hinv].
    apply last_with_address_Some in Hlast as [<- _]. intros [= <-].
    eexists. split; [apply JSON_parse_stringify |].
    apply (object_get_WalletData (getWalletData w)).
  - intros w Hin.
    destruct (last_with_address_elem ws w Hin) as [w_last Hlast].
    exists w_last. split; [done |].
    pose proof (saveWallets_lookup _ _ _ _ _ _ Hsave Hlast) as Hfile.
    apply last_with_address_Some in Hlast as Hlast'. destruct Hlast' as [Haddr _].
    split; [done |]. split.
    + eexists. split; [apply JSON_parse_stringify |].
      rewrite <- Haddr. apply (object_get_WalletData (getWalletData w_last)).
    + intros σa σb Hsave1.
      assert (Hone : last_with_address [w_last] (HDNodeWallet.address w) = Some w_last).
      { cbn. rewrite Haddr. by rewrite String.eqb_refl. }
      pose proof (saveWallets_lookup _ _ _ _ _ _ Hsave1 Hone) as Hfile1.
      rewrite (loadWallet_saved _ _ _ _ Hfile), (loadWallet_saved _ _ _ _ Hfile1).
      by destruct (recover _).
Qed.

(** C1. Round trip.  Let [w] be one of the wallets [createWallets] has
    generated, saved by [saveWallets] as part of a sequence in which no
    other wallet has its address.  When the save returns, [loadWallet]
    with the address of [w] and the same directory returns a wallet with
    the address, the public key and the private key of [w], and logs
    nothing. *)
Theorem save_load_round_trip (n : Z) (σ0 σ1 : world)
    (created ws : list HDNodeWallet.t) (w : HDNodeWallet.t)
    (dir : string) (σ σ' : world) :
  createWallets n σ0 = (Return created, σ1) →
  w ∈ created →
  w ∈ ws →
  (∀ w2 : HDNodeWallet.t,
      w2 ∈ ws → HDNodeWallet.address w2 = HDNodeWallet.address w → w2 = w) →
  saveWallets ws dir σ = (Return tt, σ') →
  ∃ w' : HDNodeWallet.t,
    loadWallet (HDNodeWallet.address w) dir σ' = (Return (Some w'), σ') ∧
    HDNodeWallet.address w' = HDNodeWallet.address w ∧
    HDNodeWallet.publicKey w' = HDNodeWallet.publicKey w ∧
    HDNodeWallet.privateKey w' = HDNodeWallet.privateKey w.
Proof.
  intros Hcreate Hcreated Hin Honly Hsave.
  assert (Hgen : generated w).
  { unfold createWallets in Hcreate.
    pose proof (createWallets_loop_generated _ _ _ _ _ (Forall_nil_2 _) Hcreate) as Hall.
    rewrite Forall_forall in Hall. by apply Hall. }
  destruct (generated_recoverable w Hgen) as (m & Hm & Hp & Hne).
  exists w. split; [|done].
  pose proof (last_with_address_only ws w Hin Honly) as Hlast.
  rewrite (loadWallet_saved _ _ w); [|by eapply saveWallets_lookup].
  rewrite recover_WalletData. cbn [getWalletData WalletData.phrase].
  rewrite Hm. cbn [fmap option_fmap option_map].
  rewrite (proj2 (String.eqb_neq _ _) Hne). by rewrite Hp.
Qed.

(** *** Loading a directory *)

Lemma loadWallets_callback_run (dir name : string) (wallets : list HDNodeWallet.t)
    (σ : world) :
  loadWallets_callback dir wallets name σ =
  (Return (wallets ++ option_list (scan_wallet (files σ) dir name)),
   set_console (console σ ++ option_list (scan_failure (files σ) dir name)) σ).
Proof.
  pose proof set_console_nil as Hid.
  unfold loadWallets_callback, scan_wallet, scan_failure, scan_entry.
  destruct (endsWith name ".json"); simpl.
  2: { unfold mret, M_ret. by rewrite Hid, app_nil_r. }
  unfold_M. simpl.
  destruct (lookup_path (files σ) (dir +:+ "/" +:+ name)) as [[content|]|];
    simpl; [|by rewrite app_nil_r ..].
  destruct (JSON_parse content) as [v|]; simpl; [|by rewrite app_nil_r].
  unfold recover.
  destruct v as [| b | m e | s | elems | props]; simpl;
    rewrite ?Hid, ?app_nil_r; try done.
  destruct (object_get props "phrase") as [[| b | m e | s | elems | props']|];
    simpl; rewrite ?Hid, ?app_nil_r; try done.
  - destruct b; simpl; by rewrite ?Hid, ?app_nil_r.
  - destruct (number_truthy m e); simpl; by rewrite ?Hid, ?app_nil_r.
  - destruct (String.eqb s ""); simpl; rewrite ?Hid, ?app_nil_r; [done |].
    destruct (fromPhrase s) as [w|]; simpl; by rewrite ?Hid, ?app_nil_r.
Qed.

Lemma forEach_with_callback_run (dir : string) (names : list string) :
  ∀ (wallets : list HDNodeWallet.t) (σ : world),
    forEach_with names wallets (loadWallets_callback dir) σ =
    (Return (wallets ++ omap (scan_wallet (files σ) dir) names),
     set_console (console σ ++ omap (scan_failure (files σ) dir) names) σ).
Proof.
  induction names as [|name names IH]; intros wallets σ.
  - cbn. rewrite !app_nil_r. by destruct σ.
  - cbn [forEach_with]. unfold mbind, M_bind.
    rewrite loadWallets_callback_run, IH. cbn [files set_console console].
    f_equal.
    + f_equal. rewrite <- app_assoc. f_equal. cbn [omap list_omap].
      by destruct (scan_wallet (files σ) dir name).
    + unfold set_console. cbn. f_equal. rewrite <- app_assoc. f_equal.
      cbn [omap list_omap]. by destruct (scan_failure (files σ) dir name).
Qed.

Lemma loadWallets_run (dir : string) (σ : world) :
  loadWallets dir σ =
  match lookup_path (files σ) dir with
  | None => (Return [], σ)
  | Some (File _) => (Throw (FsError "ENOTDIR" dir), σ)
  | Some Directory =>
    (Return (omap (scan_wallet (files σ) dir) (children (files σ) dir)),
     set_console
       (console σ ++ omap (scan_failure (files σ) dir) (children (files σ) dir)) σ)
  end.
Proof.
  unfold loadWallets, fs_existsSync, fs_readdirSync.
  unfold mbind at 1, M_bind at 1.
  destruct (lookup_path (files σ) dir) as [[c|]|] eqn:Hd; cbn [negb].
  - unfold mbind, M_bind. by rewrite Hd.
  - unfold mbind, M_bind. rewrite Hd. by rewrite forEach_with_callback_run.
  - done.
Qed.

Lemma scan_wallet_recovered (f : list (string * entry)) (dir name : string) :
  scan_wallet f dir name = recovered f dir name.
Proof.
  unfold scan_wallet, scan_entry, recovered.
  destruct (endsWith name ".json"); [|done].
  destruct (lookup_path f (dir +:+ "/" +:+ name)) as [[content|]|]; [|done|done].
  destruct (JSON_parse content) as [v|]; [|done].
  unfold recover.
  destruct v as [| b | m e | s | elems | props]; try done.
  destruct (object_get props "phrase") as [[| b | m e | s | elems | props']|];
    simpl; try done.
  - by destruct b.
  - by destruct (number_truthy m e).
  - destruct (String.eqb_spec s "") as [->|Hne].
    + by rewrite fromPhrase_empty.
    + by destruct (fromPhrase s).
Qed.


Lemma recovered_Some (f : list (string * entry)) (dir name : string)
    (w : HDNodeWallet.t) :
  recovered f dir name = Some w →
  ∃ (content : string) (props : list (string * json)) (p : string),
    endsWith name ".json" = true ∧
    lookup_path f (dir +:+ "/" +:+ name) = Some (File content) ∧
    JSON_parse content = Some (JObject props) ∧
    object_get props "phrase" = Some (JString p) ∧
    fromPhrase p = Some w.
Proof.
  unfold recovered. destruct (endsWith name ".json"); [|done].
  destruct (lookup_path f (dir +:+ "/" +:+ name)) as [[content|]|]; [|done|done].
  destruct (JSON_parse content) as [[| | | | |props]|] eqn:Hp; try done.
  destruct (object_get props "phrase") as [[| | |p| |]|] eqn:Hph; try done.
  intros Hw. exists content, props, p. repeat split; done.
Qed.

(** C3. Skip on missing phrase.  On a directory, [loadWallets] returns
    normally, and what it returns is, entry by entry in scan order, the
    wallet re-derived from the phrase of each record that carries one:
    every wallet returned comes from a [.json] entry that parses as an
    object with a [phrase].  A record file that parses as an object
    without [phrase] contributes no wallet, and the callback leaves the
    array and the world, console included, as they were. *)
Theorem loadWallets_skips_phraseless (dir : string) (σ : world) :
  lookup_path (files σ) dir = Some Directory →
  ∃ (wallets : list HDNodeWallet.t) (σ' : world),
    loadWallets dir σ = (Return wallets, σ') ∧
    wallets = omap (recovered (files σ) dir) (children (files σ) dir) ∧
    (∀ w : HDNodeWallet.t,
        w ∈ wallets →
        ∃ (name content : string) (props : list (string * json)) (p : string),
          name ∈ children (files σ) dir ∧
          lookup_path (files σ) (dir +:+ "/" +:+ name) = Some (File content) ∧
          JSON_parse content = Some (JObject props) ∧
          object_get props "phrase" = Some (JString p) ∧
          fromPhrase p = Some w) ∧
    (∀ (name content : string) (props : list (string * json)),
        lookup_path (files σ) (dir +:+ "/" +:+ name) = Some (File content) →
        JSON_parse content = Some (JObject props) →
        object_get props "phrase" = None →
        recovered (files σ) dir name = None ∧
        ∀ pushed : list HDNodeWallet.t,
          loadWallets_callback dir pushed name σ = (Return pushed, σ)).
Proof.
  intros Hd. rewrite loadWallets_run, Hd.
  eexists _, _. split; [reflexivity |].
  assert (Hsame : omap (scan_wallet (files σ) dir) (children (files σ) dir) =
                  omap (recovered (files σ) dir) (children (files σ) dir)).
  { apply list_omap_ext, Forall2_same_length_lookup_2; [done |].
    intros i x y Hx Hy. rewrite Hx in Hy. injection Hy as <-.
    apply scan_wallet_recovered. }
  split; [exact Hsame |]. split.
  - intros w Hw. rewrite Hsame in Hw.
    apply list_elem_of_omap in Hw as (name & Hname & Hrec).
    apply recovered_Some in Hrec as (content & props & p & _ & Hf & Hp & Hph & Hw).
    by exists name, content, props, p.
  - intros name content props Hf Hp Hphrase. split.
    + unfold recovered. rewrite Hf, Hp, Hphrase. by destruct (endsWith _ _).
    + intros pushed. rewrite loadWallets_callback_run.
      unfold scan_wallet, scan_failure, scan_entry.
      rewrite Hf, Hp. cbn [recover]. rewrite Hphrase. cbn [truthy].
      destruct (endsWith name ".json"); cbn [option_list];
        by rewrite set_console_nil, app_nil_r.
Qed.

(** C2. Corrupt-file isolation.  In a directory that holds exactly two
    entries with the [.json] suffix, a record whose phrase recovers the
    wallet [w] and an entry that cannot be read or is not JSON,
    [loadWallets] does not raise: it returns exactly [[w]] and writes one
    line for the other entry to the console, in whichever order the scan
    yields the two. *)
Theorem loadWallets_corrupt_file_isolated (dir good bad content : string)
    (props : list (string * json)) (p : string) (w : HDNodeWallet.t) (σ : world) :
  lookup_path (files σ) dir = Some Directory →
  children (files σ) dir ≡ₚ [good; bad] →
  endsWith good ".json" = true →
  lookup_path (files σ) (dir +:+ "/" +:+ good) = Some (File content) →
  JSON_parse content = Some (JObject props) →
  object_get props "phrase" = Some (JString p) →
  fromPhrase p = Some w →
  endsWith bad ".json" = true →
  (lookup_path (files σ) (dir +:+ "/" +:+ bad) = Some Directory ∨
   ∃ junk : string,
     lookup_path (files σ) (dir +:+ "/" +:+ bad) = Some (File junk) ∧
     JSON_parse junk = None) →
  ∃ e : error,
    loadWallets dir σ =
    (Return [w],
     set_console
       (console σ ++ [ConsoleError (load_failed +:+ dir +:+ "/" +:+ bad) e]) σ).
Proof.
  intros Hd Hperm Hgood Hfile Hparse Hphrase Hw Hbad Hcorrupt.
  assert (Hne : String.eqb p "" = false).
  { apply String.eqb_neq. intros ->. by rewrite fromPhrase_empty in Hw. }
  assert (Hscan_good : scan_entry (files σ) dir good = Return (Some w)).
  { unfold scan_entry. rewrite Hgood, Hfile, Hparse. cbn [recover].
    by rewrite Hphrase, Hne, Hw. }
  assert (Hscan_bad : ∃ e, scan_entry (files σ) dir bad = Throw e).
  { unfold scan_entry. rewrite Hbad.
    destruct Hcorrupt as [-> | (junk & -> & ->)]; by eexists. }
  destruct Hscan_bad as [e Hscan_bad]. exists e.
  rewrite loadWallets_run, Hd.
  symmetry in Hperm. apply Permutation_length_2_inv in Hperm as [-> | ->];
    cbn [omap list_omap]; unfold scan_wallet, scan_failure;
    by rewrite Hscan_good, Hscan_bad.
Qed.

(** C4. [loadWallet] returns [null] and never raises, both when
    [<directory>/<address>.json] does not exist, in which case the world
    is unchanged, and when it exists but cannot be read or is not JSON, in
    which case one line is written to the console.  The value returned is
    the same in both cases. *)
Theorem loadWallet_absent_or_unreadable (a dir : string) (σ : world) :
  (lookup_path (files σ) (dir +:+ "/" +:+ a +:+ ".json") = None →
   loadWallet a dir σ = (Return None, σ)) ∧
  (lookup_path (files σ) (dir +:+ "/" +:+ a +:+ ".json") = Some Directory ∨
   (∃ content : string,
      lookup_path (files σ) (dir +:+ "/" +:+ a +:+ ".json") = Some (File content) ∧
      JSON_parse content = None) →
   ∃ e : error,
     loadWallet a dir σ =
     (Return None,
      set_console
        (console σ ++
         [ConsoleError (load_failed +:+ dir +:+ "/" +:+ a +:+ ".json") e]) σ)).
Proof.
  split.
  - apply loadWallet_missing.
  - intros [Hl | (content & Hl & Hp)]; eexists.
    + by apply loadWallet_unreadable.
    + by eapply loadWallet_unparsable.
Qed.

(** C9. No consistency check on the address.  When the record file of
    address [a] carries a phrase that derives a wallet with another
    address, [loadWallet a] returns that wallet, not [null], and logs
    nothing. *)
Theorem loadWallet_no_address_check (a dir content : string)
    (props : list (string * json)) (p : string) (w : HDNodeWallet.t) (σ : world) :
  lookup_path (files σ) (dir +:+ "/" +:+ a +:+ ".json") = Some (File content) →
  JSON_parse content = Some (JObject props) →
  object_get props "phrase" = Some (JString p) →
  fromPhrase p = Some w →
  HDNodeWallet.address w ≠ a →
  ∃ w' : HDNodeWallet.t,
    loadWallet a dir σ = (Return (Some w'), σ) ∧ HDNodeWallet.address w' ≠ a.
Proof.
  intros Hl Hparse Hphrase Hw Hne. exists w. split; [|done].
  rewrite (loadWallet_parsed _ _ _ _ _ Hl Hparse). cbn [recover].
  rewrite Hphrase, Hw.
  destruct (String.eqb_spec p "") as [->|]; [|done].
  by rewrite fromPhrase_empty in Hw.
Qed.

(** C10. A record file that exists and parses but has no [phrase] field
    makes [loadWallet] return [null]; unless the text is the literal
    [null], the world is unchanged as well, exactly as for a missing
    file. *)
Theorem loadWallet_phraseless_is_null (a dir content : string) (v : json)
    (σ : world) :
  lookup_path (files σ) (dir +:+ "/" +:+ a +:+ ".json") = Some (File content) →
  JSON_parse content = Some v →
  phraseless v →
  (loadWallet a dir σ).1 = Return None ∧
  (v ≠ JNull → loadWallet a dir σ = (Return None, σ)).
Proof.
  intros Hl Hparse Hv.
  rewrite (loadWallet_parsed _ _ _ _ _ Hl Hparse).
  destruct v as [| b | m e | s | elems | props]; cbn [recover]; try done.
  cbn in Hv. by rewrite Hv.
Qed.

(** *** Recovery reads the phrase only *)

Lemma scan_entry_store (f : list (string * entry)) (path c1 c2 : string)
    (props1 props2 : list (string * json)) (dir name : string) :
  JSON_parse c1 = Some (JObject props1) →
  JSON_parse c2 = Some (JObject props2) →
  object_get props1 "phrase" = object_get props2 "phrase" →
  scan_entry (store_path f path (File c1)) dir name =
  scan_entry (store_path f path (File c2)) dir name.
Proof.
  intros Hp1 Hp2 Hphrase. unfold scan_entry.
  destruct (endsWith name ".json"); [|done].
  destruct (decide (path = dir +:+ "/" +:+ name)) as [->|Hne].
  - rewrite !lookup_store_eq, Hp1, Hp2. cbn [recover]. by rewrite Hphrase.
  - by rewrite !lookup_store_ne.
Qed.

(** C8. Recovery is a function of the stored phrase.  Put either of two
    record texts whose [phrase] fields agree at the same path: [loadWallet]
    returns the same value in both worlds, and so does [loadWallets],
    whatever the other fields of the two records are.  When the phrase is
    a string and the path is the record path of an address, what
    [loadWallet] returns for that address in either world is the wallet
    the SDK derives from the phrase, or [null] when it derives none; and
    in a directory, under a name without separator, the wallet derived
    from the phrase is among those [loadWallets] returns in either
    world.  The stored keys and address take no part. *)
Theorem recovery_depends_on_phrase_only (σ : world) (path c1 c2 : string)
    (props1 props2 : list (string * json)) (a dir : string) :
  JSON_parse c1 = Some (JObject props1) →
  JSON_parse c2 = Some (JObject props2) →
  object_get props1 "phrase" = object_get props2 "phrase" →
  let σ1 := set_files (store_path (files σ) path (File c1)) σ in
  let σ2 := set_files (store_path (files σ) path (File c2)) σ in
  (loadWallet a dir σ1).1 = (loadWallet a dir σ2).1 ∧
  (loadWallets dir σ1).1 = (loadWallets dir σ2).1 ∧
  ∀ p : string,
    object_get props1 "phrase" = Some (JString p) →
    path = dir +:+ "/" +:+ a +:+ ".json" →
    (loadWallet a dir σ1).1 = Return (fromPhrase p) ∧
    (loadWallet a dir σ2).1 = Return (fromPhrase p) ∧
    ∀ w : HDNodeWallet.t,
      fromPhrase p = Some w →
      split_path (a +:+ ".json") = None →
      lookup_path (files σ) dir = Some Directory →
      ∃ wallets : list HDNodeWallet.t,
        (loadWallets dir σ1).1 = Return wallets ∧
        (loadWallets dir σ2).1 = Return wallets ∧
        w ∈ wallets.
Proof.
  intros Hp1 Hp2 Hphrase σ1 σ2.
  assert (Hone : (loadWallet a dir σ1).1 = (loadWallet a dir σ2).1).
  { destruct (decide (path = wallet_path dir a)) as [->|Hne].
    + rewrite (loadWallet_parsed a dir c1 (JObject props1) σ1);
        [|apply lookup_store_eq | done].
      rewrite (loadWallet_parsed a dir c2 (JObject props2) σ2);
        [|apply lookup_store_eq | done].
      cbn [recover]. rewrite Hphrase. by destruct (object_get props2 "phrase") as [[| | | s | |]|];
        repeat case_match.
    + destruct (lookup_path (files σ) (wallet_path dir a)) as [[content|]|] eqn:Hl.
      * destruct (JSON_parse content) as [v|] eqn:Hp.
        -- rewrite (loadWallet_parsed a dir content v σ1), (loadWallet_parsed a dir content v σ2);
             try done; try (cbn [σ1 σ2 files set_files]; by rewrite lookup_store_ne).
           by destruct (recover v).
        -- rewrite (loadWallet_unparsable a dir content σ1), (loadWallet_unparsable a dir content σ2);
             try done; cbn [σ1 σ2 files set_files]; by rewrite lookup_store_ne.
      * rewrite (loadWallet_unreadable a dir σ1), (loadWallet_unreadable a dir σ2);
          try done; cbn [σ1 σ2 files set_files]; by rewrite lookup_store_ne.
      * rewrite (loadWallet_missing a dir σ1), (loadWallet_missing a dir σ2);
          try done; cbn [σ1 σ2 files set_files]; by rewrite lookup_store_ne. }
  assert (Hall : (loadWallets dir σ1).1 = (loadWallets dir σ2).1).
  { rewrite !loadWallets_run. cbn [σ1 σ2 files set_files].
    destruct (decide (path = dir)) as [->|Hne].
    + by rewrite !lookup_store_eq.
    + rewrite !lookup_store_ne by done.
      destruct (lookup_path (files σ) dir) as [[content|]|]; [done | | done].
      cbn [fst]. f_equal.
      rewrite (children_store _ _ _ (File c1) (File c2)).
      apply list_omap_ext, Forall2_same_length_lookup_2; [done |].
      intros i x y Hx Hy. rewrite Hx in Hy. injection Hy as <-.
      unfold scan_wallet. by rewrite (scan_entry_store _ _ c1 c2 props1 props2). }
  split; [exact Hone |]. split; [exact Hall |].
  intros p Hp ->.
  assert (Hload : (loadWallet a dir σ1).1 = Return (fromPhrase p)).
  { rewrite (loadWallet_parsed a dir c1 (JObject props1) σ1);
      [|apply lookup_store_eq | done].
    cbn [recover]. rewrite Hp.
    destruct (String.eqb_spec p "") as [->|Hne]; [by rewrite fromPhrase_empty |].
    by destruct (fromPhrase p). }
  split; [exact Hload |]. split; [by rewrite <- Hone |].
  intros w Hw Hname Hd.
  rewrite <- Hall, loadWallets_run. cbn [σ1 files set_files].
  rewrite lookup_store_ne by apply (wallet_path_ne_dir dir a). rewrite Hd.
  eexists. split; [reflexivity |]. split; [reflexivity |].
  apply list_elem_of_omap. exists (a +:+ ".json"). split.
  - eapply lookup_children; [apply lookup_store_eq | done].
  - unfold scan_wallet, scan_entry.
    rewrite (proj2 (endsWith_spec _ ".json")) by (by eexists).
    rewrite lookup_store_eq, Hp1. cbn [recover]. rewrite Hp, Hw.
    destruct (String.eqb_spec p "") as [->|Hne]; [|done].
    by rewrite fromPhrase_empty in Hw.
Qed.

(** *** The transfer test *)

Lemma set_console_id (σ : world) : set_console (console σ) σ = σ.
Proof. by destruct σ. Qed.

Lemma loadWallet_only_logs (a dir : string) (σ : world) :
  ∃ (r : option HDNodeWallet.t) (c : list console_line),
    loadWallet a dir σ = (Return r, set_console c σ).
Proof.
  destruct (lookup_path (files σ) (wallet_path dir a)) as [[content|]|] eqn:Hl.
  - destruct (JSON_parse content) as [v|] eqn:Hp.
    + rewrite (loadWallet_parsed _ _ _ _ _ Hl Hp).
      destruct (recover v) as [r|e]; [|by eexists _, _].
      exists r, (console σ). by rewrite set_console_id.
    + rewrite (loadWallet_unparsable _ _ _ _ Hl Hp). by eexists _, _.
  - rewrite (loadWallet_unreadable _ _ _ Hl). by eexists _, _.
  - rewrite (loadWallet_missing _ _ _ Hl).
    exists None, (console σ). by rewrite set_console_id.
Qed.

End Store.

(** * Further properties of the code *)

(** ** More on the file system *)

Lemma store_path_absent (f : list (string * entry)) (p : string) (e : entry) :
  lookup_path f p = None → store_path f p e = f ++ [(p, e)].
Proof.
  induction f as [|[q e'] f IH]; cbn [lookup_path store_path]; [done |].
  destruct (String.eqb q p); [done |].
  intros Hl. by rewrite IH.
Qed.

Lemma store_path_present (f : list (string * entry)) (p : string) (e : entry) :
  lookup_path f p = Some e → store_path f p e = f.
Proof.
  induction f as [|[q e'] f IH]; cbn [lookup_path store_path]; [done |].
  destruct (String.eqb q p); [by intros [= ->] |].
  intros Hl. by rewrite IH.
Qed.

Lemma store_path_twice (f : list (string * entry)) (p : string) (e e' : entry) :
  store_path (store_path f p e) p e' = store_path f p e'.
Proof.
  induction f as [|[q e0] f IH]; cbn [store_path].
  - by rewrite String.eqb_refl.
  - destruct (String.eqb q p) eqn:Hq; cbn [store_path]; rewrite Hq; [done |].
    by rewrite IH.
Qed.

Lemma store_path_comm (f : list (string * entry)) (p q : string) (e e' : entry) :
  p ≠ q →
  is_Some (lookup_path f p) →
  store_path (store_path f p e) q e' = store_path (store_path f q e') p e.
Proof.
  intros Hne. induction f as [|[r e0] f IH]; cbn [lookup_path store_path].
  - by intros [? ?].
  - destruct (String.eqb_spec r p) as [->|Hrp].
    + intros _. cbn [store_path].
      rewrite (proj2 (String.eqb_neq p q) Hne). cbn [store_path].
      by rewrite String.eqb_refl.
    + intros Hp. cbn [store_path].
      destruct (String.eqb_spec r q) as [->|Hrq]; cbn [store_path].
      * by rewrite (proj2 (String.eqb_neq q p) Hrp).
      * rewrite (proj2 (String.eqb_neq r p) Hrp). by rewrite IH.
Qed.

Lemma children_app (f g : list (string * entry)) (d : string) :
  children (f ++ g) d = children f d ++ children g d.
Proof.
  induction f as [|[q e] f IH]; [done |]. cbn [app children].
  destruct (split_path q) as [[d' name]|]; [|done].
  destruct (String.eqb d' d); [|done]. by rewrite IH.
Qed.

Lemma children_store_present (f : list (string * entry)) (p d : string)
    (e : entry) :
  is_Some (lookup_path f p) → children (store_path f p e) d = children f d.
Proof.
  induction f as [|[q e0] f IH]; cbn [lookup_path store_path].
  - by intros [? ?].
  - destruct (String.eqb q p); [done |].
    intros Hl. cbn [children]. by rewrite IH.
Qed.

Lemma children_own_entry (f : list (string * entry)) (d : string) (e : entry) :
  children (store_path f d e) d = children f d.
Proof.
  induction f as [|[q e0] f IH]; cbn [store_path children].
  - destruct (split_path d) as [[d' name]|] eqn:Hs; [|done].
    destruct (String.eqb_spec d' d) as [->|]; [|done].
    apply split_path_Some in Hs as [Hs _].
    apply (f_equal String.length) in Hs.
    rewrite length_append, append_String in Hs. simpl in Hs. lia.
  - destruct (String.eqb q d); cbn [children]; [done |]. by rewrite IH.
Qed.

Section Behaviour.
Context `{Ethers}.

(** ** Generating wallets *)

Lemma createWallets_loop_run (n : nat) :
  ∀ (acc : list HDNodeWallet.t) (σ : world),
    createWallets_loop n acc σ =
    (Return (acc ++ ((λ i, createRandom (random σ i)) <$> seq 0 n)),
     match n with
     | O => σ
     | S _ => set_random (λ i, random σ (n + i)) σ
     end).
Proof.
  induction n as [|n IH]; intros acc σ.
  - cbn. by rewrite app_nil_r.
  - cbn [createWallets_loop]. unfold Wallet_createRandom, draw_entropy.
    unfold mbind at 1 2, M_bind at 1 2. unfold mret at 1, M_ret at 1.
    rewrite IH. f_equal.
    + f_equal. rewrite <- app_assoc. f_equal. cbn [seq fmap list_fmap].
      f_equal. by rewrite <- fmap_S_seq, <- list_fmap_compose.
    + by destruct n.
Qed.

(** X1. [createWallets n] returns exactly [n] wallets, none when [n] is
    not positive: the wallet at index [i] is the one the SDK builds from
    the [i]-th draw of entropy, in the order drawn.  It consumes these [n]
    draws and changes neither the files, nor the console, nor the log of
    calls. *)
Theorem createWallets_draws_fresh_entropy (walletCount : Z) (σ : world) :
  ∃ σ' : world,
    createWallets walletCount σ =
    (Return ((λ i, createRandom (random σ i)) <$> seq 0 (Z.to_nat walletCount)), σ') ∧
    (∀ i : nat, random σ' i = random σ (Z.to_nat walletCount + i)) ∧
    files σ' = files σ ∧ console σ' = console σ ∧ calls σ' = calls σ.
Proof.
  unfold createWallets. rewrite createWallets_loop_run.
  destruct (Z.to_nat walletCount) as [|n]; eexists; (split; [reflexivity |]);
    repeat split.
Qed.

(** ** Saving: what is written and what is left alone *)

Lemma saveWallets_run (ws : list HDNodeWallet.t) (dir : string) (σ : world) :
  saveWallets ws dir σ =
  match lookup_path (files σ) dir with
  | Some _ => forEach ws (save_one dir) σ
  | None =>
    match parent_error (files σ) dir with
    | Some e => (Throw e, σ)
    | None =>
      forEach ws (save_one dir) (set_files (store_path (files σ) dir Directory) σ)
    end
  end.
Proof.
  unfold saveWallets, fs_existsSync, fs_mkdirSync.
  unfold mbind at 1 2, M_bind at 1 2.
  destruct (lookup_path (files σ) dir) as [e|] eqn:Hd; cbn [negb]; [done |].
  rewrite Hd. by destruct (parent_error (files σ) dir).
Qed.

Lemma forEach_app {A : Type} (l1 l2 : list A) (callback : A → M unit) (σ : world) :
  forEach (l1 ++ l2) callback σ =
  match forEach l1 callback σ with
  | (Return _, σ1) => forEach l2 callback σ1
  | (Throw e, σ1) => (Throw e, σ1)
  end.
Proof.
  revert σ. induction l1 as [|x l1 IH]; intros σ; [done |].
  cbn [app forEach]. unfold mbind, M_bind.
  destruct (callback x σ) as [[[]|e] σ1]; [apply IH | done].
Qed.

Lemma writeFileSync_cases (p data : string) (σ : world) :
  (∃ e : error, fs_writeFileSync p data σ = (Throw e, σ)) ∨
  fs_writeFileSync p data σ =
    (Return tt, set_files (store_path (files σ) p (File data)) σ).
Proof.
  unfold fs_writeFileSync.
  destruct (lookup_path (files σ) p) as [[c|]|]; [by right | left; by eexists |].
  destruct (parent_error (files σ) p); [left; by eexists | by right].
Qed.

Lemma forEach_save_frame (dir : string) (ws : list HDNodeWallet.t) :
  ∀ (σ σ' : world) (r : outcome unit),
    forEach ws (save_one dir) σ = (r, σ') →
    same_but_files σ σ' ∧
    ∀ p : string,
      (∀ w : HDNodeWallet.t, w ∈ ws → p ≠ wallet_path dir (HDNodeWallet.address w)) →
      lookup_path (files σ') p = lookup_path (files σ) p.
Proof.
  induction ws as [|w ws IH]; intros σ σ' r Hrun.
  - cbn in Hrun. injection Hrun as _ <-. by repeat split.
  - cbn [forEach] in Hrun. unfold mbind, M_bind in Hrun.
    destruct (writeFileSync_cases (wallet_path dir (HDNodeWallet.address w))
                (JSON_stringify (getWalletData w)) σ) as [[e He] | Hw];
      unfold save_one in Hrun at 1.
    + rewrite He in Hrun. injection Hrun as _ <-. by repeat split.
    + rewrite Hw in Hrun. apply IH in Hrun as [Hsame Hframe].
      split; [exact Hsame |].
      intros p Hp. rewrite Hframe.
      * cbn [files set_files]. apply lookup_store_ne.
        intros Heq. by apply (Hp w); [left |].
      * intros w' Hin. apply Hp. by right.
Qed.

Lemma saveWallets_forEach_any (ws : list HDNodeWallet.t) (dir : string)
    (σ σ' : world) (r : outcome unit) :
  saveWallets ws dir σ = (r, σ') →
  (σ' = σ ∧ ∃ e : error, r = Throw e) ∨
  ∃ σ0 : world,
    forEach ws (save_one dir) σ0 = (r, σ') ∧
    ((is_Some (lookup_path (files σ) dir) ∧ σ0 = σ) ∨
     (lookup_path (files σ) dir = None ∧
      σ0 = set_files (store_path (files σ) dir Directory) σ)).
Proof.
  rewrite saveWallets_run.
  destruct (lookup_path (files σ) dir) as [e|] eqn:Hd.
  - intros Hrun. right. exists σ. split; [exact Hrun | left; by split].
  - destruct (parent_error (files σ) dir).
    + intros [= <- <-]. left. split; [done | by eexists].
    + intros Hrun. right. eexists. split; [exact Hrun |]. right. by split.
Qed.

(** X3. Whatever its outcome, [saveWallets] leaves every path other
    than the directory and the record files of its wallets as it was,
    writes nothing to the console and calls no node.  The directory, the
    record paths and the other path are spelled canonically, so that
    different spellings are different entries. *)
Theorem saveWallets_touches_only_its_records (ws : list HDNodeWallet.t)
    (dir : string) (σ σ' : world) (r : outcome unit) (p : string) :
  canonical dir = true →
  canonical p = true →
  (∀ w : HDNodeWallet.t,
      w ∈ ws →
      canonical (dir +:+ "/" +:+ HDNodeWallet.address w +:+ ".json") = true) →
  saveWallets ws dir σ = (r, σ') →
  p ≠ dir →
  (∀ w : HDNodeWallet.t,
      w ∈ ws → p ≠ dir +:+ "/" +:+ HDNodeWallet.address w +:+ ".json") →
  lookup_path (files σ') p = lookup_path (files σ) p ∧
  console σ' = console σ ∧
  calls σ' = calls σ.
Proof.
  intros _ _ _ Hrun Hdir Hp.
  apply saveWallets_forEach_any in Hrun as [[-> _] | (σ0 & Hrun & Hσ0)]; [done |].
  apply forEach_save_frame in Hrun as [(Hc & _ & _ & _ & Hcalls) Hframe].
  rewrite (Hframe p Hp), Hc, Hcalls.
  destruct Hσ0 as [[_ ->] | [_ ->]]; [done |].
  cbn [files console calls set_files]. by rewrite lookup_store_ne.
Qed.

(** X4. Saving is not atomic.  When a directory sits at the record
    path of a wallet, [saveWallets] raises EISDIR at that wallet: the
    records of the wallets before it have been written and stay, those of
    the wallets after it are never written.  The world is the one that
    saving the wallets before it leaves. *)
Theorem saveWallets_stops_at_first_failure (ws1 ws2 : list HDNodeWallet.t)
    (w : HDNodeWallet.t) (dir : string) (σ σ1 : world) :
  saveWallets ws1 dir σ = (Return tt, σ1) →
  lookup_path (files σ1) (dir +:+ "/" +:+ HDNodeWallet.address w +:+ ".json")
    = Some Directory →
  saveWallets (ws1 ++ w :: ws2) dir σ =
  (Throw (FsError "EISDIR" (dir +:+ "/" +:+ HDNodeWallet.address w +:+ ".json")),
   σ1).
Proof.
  rewrite !saveWallets_run. intros Hrun Hl.
  assert (Hstep : ∀ σ0 : world,
             forEach ws1 (save_one dir) σ0 = (Return tt, σ1) →
             forEach (ws1 ++ w :: ws2) (save_one dir) σ0 =
             (Throw (FsError "EISDIR" (wallet_path dir (HDNodeWallet.address w))), σ1)).
  { intros σ0 Hpre. rewrite forEach_app, Hpre. cbn [forEach].
    unfold mbind, M_bind, save_one at 1, fs_writeFileSync, wallet_path.
    by rewrite Hl. }
  destruct (lookup_path (files σ) dir); [by apply Hstep |].
  destruct (parent_error (files σ) dir); [done | by apply Hstep].
Qed.


(** X6. [saveWallets] takes any existing path for the directory.  When
    the path names a regular file, saving no wallet returns and changes
    nothing; saving a wallet under a name without separator raises
    ENOTDIR at the first record, and changes nothing. *)
Theorem saveWallets_on_a_file (dir content : string) (σ : world) :
  lookup_path (files σ) dir = Some (File content) →
  saveWallets [] dir σ = (Return tt, σ) ∧
  ∀ (w : HDNodeWallet.t) (ws : list HDNodeWallet.t),
    split_path (HDNodeWallet.address w +:+ ".json") = None →
    lookup_path (files σ) (dir +:+ "/" +:+ HDNodeWallet.address w +:+ ".json") = None →
    saveWallets (w :: ws) dir σ =
    (Throw (FsError "ENOTDIR" (dir +:+ "/" +:+ HDNodeWallet.address w +:+ ".json")),
     σ).
Proof.
  intros Hd. split; [by rewrite saveWallets_run, Hd |].
  intros w ws Hname Hl. rewrite saveWallets_run, Hd. cbn [forEach].
  unfold mbind, M_bind, save_one at 1, fs_writeFileSync, wallet_path, parent_error.
  by rewrite Hl, (split_path_join _ _ Hname), Hd.
Qed.


(** X2. For a directory path spelled canonically, [saveWallets] returns
    when the directory is there, or is missing while the directory it
    lies in is there, and the address of every wallet gives a file name
    without separator at which no directory sits.  The path is a directory
    afterwards. *)
Theorem saveWallets_returns_when_writable (ws : list HDNodeWallet.t)
    (dir : string) (σ : world) :
  canonical dir = true →
  lookup_path (files σ) dir = Some Directory ∨
  (lookup_path (files σ) dir = None ∧
   ∃ parent name : string,
     split_path dir = Some (parent, name) ∧
     lookup_path (files σ) parent = Some Directory) →
  Forall (can_save dir (files σ)) ws →
  ∃ σ' : world,
    saveWallets ws dir σ = (Return tt, σ') ∧
    lookup_path (files σ') dir = Some Directory.
Proof.
  intros _ Hdir' Hall.
  assert (Hdir : lookup_path (files σ) dir = Some Directory ∨
                 (lookup_path (files σ) dir = None ∧
                  parent_error (files σ) dir = None)).
  { destruct Hdir' as [Hd | (Hd & parent & name & Hs & Hp)]; [by left | right].
    split; [done |]. unfold parent_error. by rewrite Hs, Hp. }
  destruct (saveWallets_returns ws dir σ Hdir Hall) as [σ' Hrun].
  exists σ'. split; [exact Hrun |].
  apply saveWallets_forEach_any in Hrun as [[_ [e ?]] | (σ0 & Hrun & Hσ0)]; [done |].
  apply forEach_save_frame in Hrun as [_ Hframe].
  rewrite Hframe by (intros w _ Heq; by apply (wallet_path_ne_dir dir (HDNodeWallet.address w))).
  destruct Hσ0 as [[[e He] ->] | [_ ->]].
  - destruct Hdir as [Hd | [Hd _]]; [done | congruence].
  - cbn [files set_files]. apply lookup_store_eq.
Qed.


(** *** Saving again *)

Lemma forEach_save_files (dir : string) (ws : list HDNodeWallet.t) :
  ∀ σ σ' : world,
    forEach ws (save_one dir) σ = (Return tt, σ') →
    σ' = set_files (foldl (write_record dir) (files σ) ws) σ.
Proof.
  induction ws as [|w ws IH]; intros σ σ' Hrun.
  - cbn in Hrun. injection Hrun as <-. by destruct σ.
  - cbn [forEach] in Hrun. unfold mbind, M_bind in Hrun.
    destruct (save_one dir w σ) as [[[]|e] σ1] eqn:Hw; [|congruence].
    apply writeFileSync_returns in Hw. subst σ1.
    by rewrite (IH _ _ Hrun).
Qed.

Lemma forEach_save_present (dir : string) (ws : list HDNodeWallet.t) :
  ∀ σ : world,
    (∀ w : HDNodeWallet.t,
        w ∈ ws →
        ∃ content : string,
          lookup_path (files σ) (wallet_path dir (HDNodeWallet.address w)) =
          Some (File content)) →
    forEach ws (save_one dir) σ =
    (Return tt, set_files (foldl (write_record dir) (files σ) ws) σ).
Proof.
  induction ws as [|w ws IH]; intros σ Hall.
  - cbn. by destruct σ.
  - cbn [forEach foldl]. unfold mbind, M_bind, save_one at 1, fs_writeFileSync.
    destruct (Hall w) as [content ->]; [by left |].
    rewrite IH; [done |].
    intros w' Hin. cbn [files set_files].
    destruct (decide (wallet_path dir (HDNodeWallet.address w) =
                      wallet_path dir (HDNodeWallet.address w'))) as [<-|Hne].
    + rewrite lookup_store_eq. by eexists.
    + rewrite lookup_store_ne by done. apply Hall. by right.
Qed.

Lemma write_records_present (dir : string) (ws : list HDNodeWallet.t) :
  ∀ (f : list (string * entry)) (p : string),
    is_Some (lookup_path f p) →
    is_Some (lookup_path (foldl (write_record dir) f ws) p).
Proof.
  induction ws as [|w ws IH]; intros f p Hp; [done |].
  cbn [foldl]. apply IH. unfold write_record.
  destruct (decide (wallet_path dir (HDNodeWallet.address w) = p)) as [<-|Hne].
  - rewrite lookup_store_eq. by eexists.
  - by rewrite lookup_store_ne.
Qed.

Lemma write_records_file (dir : string) (ws : list HDNodeWallet.t) :
  ∀ (f : list (string * entry)) (p c : string),
    lookup_path f p = Some (File c) →
    ∃ c' : string, lookup_path (foldl (write_record dir) f ws) p = Some (File c').
Proof.
  induction ws as [|w ws IH]; intros f p c Hp; [by exists c |].
  cbn [foldl]. unfold write_record at 2.
  destruct (decide (wallet_path dir (HDNodeWallet.address w) = p)) as [<-|Hne].
  - eapply IH. apply lookup_store_eq.
  - eapply IH. by rewrite lookup_store_ne.
Qed.

Lemma write_records_written (dir : string) (ws : list HDNodeWallet.t) :
  ∀ (f : list (string * entry)) (w : HDNodeWallet.t),
    w ∈ ws →
    ∃ c : string,
      lookup_path (foldl (write_record dir) f ws)
                  (wallet_path dir (HDNodeWallet.address w)) = Some (File c).
Proof.
  induction ws as [|v ws IH]; intros f w Hin.
  - by apply elem_of_nil in Hin.
  - cbn [foldl]. apply elem_of_cons in Hin as [->|Hin]; [|by apply IH].
    eapply write_records_file. unfold write_record. apply lookup_store_eq.
Qed.

Lemma write_record_absorbed (dir : string) (w : HDNodeWallet.t)
    (ws : list HDNodeWallet.t) :
  ∀ f : list (string * entry),
    (∀ v : HDNodeWallet.t,
        v ∈ ws →
        is_Some (lookup_path f (wallet_path dir (HDNodeWallet.address v)))) →
    write_record dir (foldl (write_record dir) (write_record dir f w) ws) w =
    write_record dir (foldl (write_record dir) f ws) w.
Proof.
  induction ws as [|v ws IH]; intros f Hall.
  - cbn [foldl]. unfold write_record. apply store_path_twice.
  - cbn [foldl].
    destruct (decide (wallet_path dir (HDNodeWallet.address v) =
                      wallet_path dir (HDNodeWallet.address w))) as [Heq|Hne].
    + assert (Hsame : write_record dir (write_record dir f w) v =
                      write_record dir f v).
      { unfold write_record. rewrite <- Heq. apply store_path_twice. }
      by rewrite Hsame.
    + assert (Hswap : write_record dir (write_record dir f w) v =
                      write_record dir (write_record dir f v) w).
      { unfold write_record. symmetry. apply store_path_comm; [done |].
        apply Hall. by left. }
      rewrite Hswap. apply IH.
      intros v' Hin. unfold write_record.
      destruct (decide (wallet_path dir (HDNodeWallet.address v) =
                        wallet_path dir (HDNodeWallet.address v'))) as [<-|Hne'].
      * rewrite lookup_store_eq. by eexists.
      * rewrite lookup_store_ne by done. apply Hall. by right.
Qed.

Lemma write_records_idempotent (dir : string) (ws : list HDNodeWallet.t) :
  ∀ f : list (string * entry),
    foldl (write_record dir) (foldl (write_record dir) f ws) ws =
    foldl (write_record dir) f ws.
Proof.
  induction ws as [|w ws IH] using rev_ind; intros f; [done |].
  rewrite !foldl_app. cbn [foldl].
  rewrite write_record_absorbed.
  - by rewrite IH.
  - intros v Hin. destruct (write_records_written dir ws f v Hin) as [c ->].
    by eexists.
Qed.

(** X7. Saving again is idempotent: when [saveWallets] has returned,
    saving the same wallets into the same directory returns and leaves the
    world exactly as it is, also when several of them share an address. *)
Theorem saveWallets_idempotent (ws : list HDNodeWallet.t) (dir : string)
    (σ σ1 : world) :
  saveWallets ws dir σ = (Return tt, σ1) →
  saveWallets ws dir σ1 = (Return tt, σ1).
Proof.
  intros Hrun.
  assert (Hfiles : ∃ f : list (string * entry),
             is_Some (lookup_path f dir) ∧
             σ1 = set_files (foldl (write_record dir) f ws) σ1).
  { apply saveWallets_forEach_any in Hrun as [[_ [e ?]] | (σ0 & Hrun & Hσ0)]; [done |].
    apply forEach_save_files in Hrun. exists (files σ0). split.
    - destruct Hσ0 as [[Hd ->] | [_ ->]]; [done |].
      cbn [files set_files]. rewrite lookup_store_eq. by eexists.
    - rewrite Hrun at 1. by rewrite Hrun. }
  destruct Hfiles as (f & Hd & Hσ1).
  assert (Hf1 : files σ1 = foldl (write_record dir) f ws) by (by rewrite Hσ1).
  rewrite saveWallets_run.
  destruct (lookup_path (files σ1) dir) as [e|] eqn:Hd1.
  - rewrite forEach_save_present.
    + rewrite Hf1, write_records_idempotent, <- Hf1. by destruct σ1.
    + intros w Hin.
      rewrite Hf1. by apply write_records_written.
  - rewrite Hf1 in Hd1. pose proof (write_records_present dir ws f dir Hd) as [? ?].
    congruence.
Qed.


(** *** Saving, then loading the directory *)

Lemma children_store_absent (f : list (string * entry)) (d name : string)
    (e : entry) :
  lookup_path f (d +:+ "/" +:+ name) = None →
  split_path name = None →
  children (store_path f (d +:+ "/" +:+ name) e) d = children f d ++ [name].
Proof.
  intros Hl Hname. rewrite (store_path_absent _ _ _ Hl), children_app.
  cbn [children]. by rewrite (split_path_join _ _ Hname), String.eqb_refl.
Qed.

Lemma forEach_save_children (dir : string) (ws : list HDNodeWallet.t) :
  ∀ σ σ' : world,
    Forall (λ w, split_path (HDNodeWallet.address w +:+ ".json") = None) ws →
    forEach ws (save_one dir) σ = (Return tt, σ') →
    (NoDup (children (files σ) dir) → NoDup (children (files σ') dir)) ∧
    ∀ name : string,
      name ∈ children (files σ') dir ↔
      name ∈ children (files σ) dir ∨
      ∃ w : HDNodeWallet.t, w ∈ ws ∧ name = HDNodeWallet.address w +:+ ".json".
Proof.
  induction ws as [|w ws IH]; intros σ σ' Hfree Hrun.
  - cbn in Hrun. injection Hrun as <-. split; [done |].
    intros name. split; [by left |]. intros [? | (w & Hin & _)]; [done |].
    by apply elem_of_nil in Hin.
  - apply Forall_cons in Hfree as [Hw Hfree].
    cbn [forEach] in Hrun. unfold mbind, M_bind in Hrun.
    destruct (save_one dir w σ) as [[[]|e] σ1] eqn:Hsave; [|congruence].
    apply writeFileSync_returns in Hsave.
    destruct (IH _ _ Hfree Hrun) as [Hnd Hin]. subst σ1.
    cbn [files set_files] in Hnd, Hin. unfold wallet_path in Hnd, Hin.
    destruct (lookup_path (files σ) (dir +:+ "/" +:+ HDNodeWallet.address w +:+ ".json"))
      as [e|] eqn:Hl.
    + rewrite children_store_present in Hnd, Hin by (by eexists).
      split; [done |]. intros name. rewrite Hin. split.
      * intros [? | (v & Hv & ->)]; [by left |]. right. exists v. split; [by right | done].
      * intros [? | (v & [->|Hv]%elem_of_cons & ->)]; [by left | | right; by exists v].
        left. by eapply lookup_children.
    + rewrite (children_store_absent _ _ _ _ Hl Hw) in Hnd, Hin.
      split.
      * intros Hnd0. apply Hnd. rewrite Permutation_app_comm. cbn [app].
        apply NoDup_cons. split; [|done].
        intros [e He]%children_lookup. congruence.
      * intros name. rewrite Hin, elem_of_app, list_elem_of_singleton. split.
        -- intros [[? | ->] | (v & Hv & ->)].
           ++ by left.
           ++ right. exists w. split; [by left | done].
           ++ right. exists v. split; [by right | done].
        -- intros [? | (v & [->|Hv]%elem_of_cons & ->)].
           ++ left. by left.
           ++ left. by right.
           ++ right. by exists v.
Qed.

Lemma NoDup_omap_inj {A B : Type} (g : A → option B) (l : list A) :
  NoDup l →
  (∀ (x y : A) (z : B), x ∈ l → y ∈ l → g x = Some z → g y = Some z → x = y) →
  NoDup (omap g l).
Proof.
  induction 1 as [|x l Hx Hnd IH]; intros Hinj; [constructor |].
  cbn [omap list_omap].
  assert (Hrest : NoDup (omap g l)).
  { apply IH. intros a b z Ha Hb. apply Hinj; by right. }
  destruct (g x) as [z|] eqn:Hgx; [|done].
  apply NoDup_cons. split; [|done].
  intros (y & Hy & Hgy)%list_elem_of_omap.
  apply Hx. rewrite (Hinj x y z); [done | by left | by right | done | done].
Qed.

Lemma NoDup_fmap_inj_on {A B : Type} (g : A → B) (l : list A) (x y : A) :
  NoDup (g <$> l) → x ∈ l → y ∈ l → g x = g y → x = y.
Proof.
  induction l as [|z l IH]; [by intros _ ?%elem_of_nil |].
  rewrite fmap_cons, NoDup_cons.
  intros [Hz Hnd] [->|Hx]%elem_of_cons [->|Hy]%elem_of_cons Heq.
  - done.
  - destruct Hz. rewrite Heq. by apply list_elem_of_fmap_2.
  - destruct Hz. rewrite <- Heq. by apply list_elem_of_fmap_2.
  - by apply IH.
Qed.

Lemma omap_none {A B : Type} (g : A → option B) (l : list A) :
  (∀ x : A, x ∈ l → g x = None) → omap g l = [].
Proof.
  induction l as [|x l IH]; intros Hnone; [done |].
  cbn [omap list_omap]. rewrite (Hnone x) by (by left).
  apply IH. intros y Hy. apply Hnone. by right.
Qed.

Lemma scan_wallet_saved (f : list (string * entry)) (dir : string)
    (w : HDNodeWallet.t) :
  generated w →
  lookup_path f (dir +:+ "/" +:+ HDNodeWallet.address w +:+ ".json") =
    Some (File (JSON_stringify (getWalletData w))) →
  scan_wallet f dir (HDNodeWallet.address w +:+ ".json") = Some w.
Proof.
  intros Hgen Hl. unfold scan_wallet, scan_entry.
  rewrite (proj2 (endsWith_spec _ ".json")) by (by eexists).
  rewrite Hl, JSON_parse_stringify, recover_WalletData.
  destruct (generated_recoverable w Hgen) as (m & Hm & Hp & Hne).
  cbn [getWalletData WalletData.phrase]. rewrite Hm. cbn [fmap option_fmap option_map].
  by rewrite (proj2 (String.eqb_neq _ _) Hne), Hp.
Qed.

Lemma save_then_loadWallets (ws : list HDNodeWallet.t) (dir : string)
    (σ σ' : world) :
  Forall generated ws →
  Forall (λ w, split_path (HDNodeWallet.address w +:+ ".json") = None) ws →
  lookup_path (files σ) dir = None ∨ lookup_path (files σ) dir = Some Directory →
  children (files σ) dir = [] →
  saveWallets ws dir σ = (Return tt, σ') →
  ∃ loaded : list HDNodeWallet.t,
    loadWallets dir σ' = (Return loaded, σ') ∧
    NoDup (HDNodeWallet.address <$> loaded) ∧
    (∀ w : HDNodeWallet.t,
        w ∈ loaded ↔ last_with_address ws (HDNodeWallet.address w) = Some w) ∧
    (NoDup (HDNodeWallet.address <$> ws) → loaded ≡ₚ ws).
Proof.
  intros Hgen Hfree Hdir Hempty Hsave.
  pose proof (saveWallets_lookup_path ws dir σ σ') as Hrecord.
  assert (Hd' : lookup_path (files σ') dir = Some Directory ∧
                NoDup (children (files σ') dir) ∧
                ∀ name : string,
                  name ∈ children (files σ') dir ↔
                  ∃ w : HDNodeWallet.t,
                    w ∈ ws ∧ name = HDNodeWallet.address w +:+ ".json").
  { apply saveWallets_forEach_any in Hsave as [[_ [e ?]] | (σ0 & Hrun & Hσ0)]; [done |].
    assert (Hd0 : lookup_path (files σ0) dir = Some Directory ∧
                  children (files σ0) dir = []).
    { destruct Hσ0 as [[[e He] ->] | [_ ->]].
      - destruct Hdir as [? | ?]; [congruence | done].
      - cbn [files set_files]. by rewrite lookup_store_eq, children_own_entry. }
    destruct Hd0 as [Hd0 Hc0].
    destruct (forEach_save_children _ _ _ _ Hfree Hrun) as [Hnd Hin].
    apply forEach_save_frame in Hrun as [_ Hframe].
    rewrite Hframe
      by (intros w _ Heq; by apply (wallet_path_ne_dir dir (HDNodeWallet.address w))).
    split; [done |]. split; [apply Hnd; rewrite Hc0; constructor |].
    intros name. rewrite Hin, Hc0. split; [|by right].
    by intros [?%elem_of_nil | ?]. }
  destruct Hd' as (Hd' & Hnd & Hnames).
  assert (Hscan : ∀ w : HDNodeWallet.t,
             w ∈ ws →
             ∃ w_last : HDNodeWallet.t,
               last_with_address ws (HDNodeWallet.address w) = Some w_last ∧
               scan_entry (files σ') dir (HDNodeWallet.address w +:+ ".json") =
               Return (Some w_last)).
  { intros w Hin. destruct (last_with_address_elem ws w Hin) as [w_last Hlast].
    exists w_last. split; [done |].
    pose proof (Hrecord (HDNodeWallet.address w) Hsave) as Hl. rewrite Hlast in Hl.
    apply last_with_address_Some in Hlast as [Haddr Hin'].
    rewrite Forall_forall in Hgen.
    pose proof (scan_wallet_saved (files σ') dir w_last (Hgen _ Hin')) as Hs.
    rewrite Haddr in Hs. specialize (Hs Hl).
    unfold scan_wallet in Hs.
    destruct (scan_entry _ _ _) as [r|e]; [by subst r | done]. }
  assert (Hname : ∀ (name : string) (a : string),
             name ∈ children (files σ') dir →
             HDNodeWallet.address <$> scan_wallet (files σ') dir name = Some a →
             name = a +:+ ".json").
  { intros name a (v & Hin & ->)%Hnames.
    destruct (Hscan v Hin) as (w_last & Hlast & Hs).
    unfold scan_wallet. rewrite Hs. cbn. intros [= <-].
    apply last_with_address_Some in Hlast as [-> _]. done. }
  rewrite loadWallets_run, Hd'.
  rewrite (omap_none (scan_failure (files σ') dir)), app_nil_r, set_console_id.
  2: { intros name (v & Hin & ->)%Hnames.
       destruct (Hscan v Hin) as (w_last & _ & Hs).
       unfold scan_failure. by rewrite Hs. }
  eexists. split; [reflexivity |].
  assert (Hmem : ∀ w : HDNodeWallet.t,
             w ∈ omap (scan_wallet (files σ') dir) (children (files σ') dir) ↔
             last_with_address ws (HDNodeWallet.address w) = Some w).
  { intros w. rewrite list_elem_of_omap. split.
    - intros (name & (v & Hin & ->)%Hnames & Hw).
      destruct (Hscan v Hin) as (w_last & Hlast & Hs).
      unfold scan_wallet in Hw. rewrite Hs in Hw. injection Hw as ->.
      apply last_with_address_Some in Hlast as Hl'. destruct Hl' as [Ha _].
      by rewrite Ha.
    - intros Hlast. apply last_with_address_Some in Hlast as Hl'.
      destruct Hl' as [_ Hin].
      exists (HDNodeWallet.address w +:+ ".json"). split.
      + apply Hnames. by exists w.
      + destruct (Hscan w Hin) as (w_last & Hlast' & Hs).
        unfold scan_wallet. rewrite Hs. congruence. }
  assert (Hnd' : NoDup (HDNodeWallet.address <$>
                        omap (scan_wallet (files σ') dir) (children (files σ') dir))).
  { rewrite list_fmap_omap. apply NoDup_omap_inj; [done |].
    intros n1 n2 a Hn1 Hn2 H1 H2.
    by rewrite (Hname n1 a Hn1 H1), (Hname n2 a Hn2 H2). }
  split; [done |]. split; [done |].
  intros Hdistinct. apply NoDup_Permutation.
  - by eapply NoDup_fmap_1.
  - by eapply NoDup_fmap_1.
  - intros w. rewrite Hmem. split.
    + by intros [_ ?]%last_with_address_Some.
    + intros Hin. apply last_with_address_only; [done |].
      intros w2 Hin2 Haddr. by eapply NoDup_fmap_inj_on.
Qed.


(** X10. Wallets that [createWallets] has generated, saved into a
    directory that is new or has no entries, are what [loadWallets]
    returns from it afterwards, without writing to the console: one
    wallet per address, namely the last one saved under that address.
    When the addresses are distinct these are exactly the saved wallets,
    in some order. *)
Theorem saved_wallets_load_back (n : Z) (σ0 σ1 : world)
    (ws : list HDNodeWallet.t) (dir : string) (σ σ' : world) :
  createWallets n σ0 = (Return ws, σ1) →
  Forall (λ w, split_path (HDNodeWallet.address w +:+ ".json") = None) ws →
  lookup_path (files σ) dir = None ∨ lookup_path (files σ) dir = Some Directory →
  children (files σ) dir = [] →
  saveWallets ws dir σ = (Return tt, σ') →
  ∃ loaded : list HDNodeWallet.t,
    loadWallets dir σ' = (Return loaded, σ') ∧
    NoDup (HDNodeWallet.address <$> loaded) ∧
    (∀ w : HDNodeWallet.t,
        w ∈ loaded ↔ last_with_address ws (HDNodeWallet.address w) = Some w) ∧
    (NoDup (HDNodeWallet.address <$> ws) → loaded ≡ₚ ws).
Proof.
  intros Hcreate. apply save_then_loadWallets.
  unfold createWallets in Hcreate.
  by eapply createWallets_loop_generated.
Qed.

(** X11. [testCreateWallets] returns, without writing to the console,
    in a world where [./wallets] has no entries and is a directory or can
    be made in the working directory, provided the addresses the SDK
    generates have no separator.  [loadWallets] on the default directory
    then returns, for each address among the ten wallets drawn, the last
    of them with that address, and nothing else. *)
Theorem testCreateWallets_then_loadWallets (σ : world) :
  lookup_path (files σ) default_walletsDir = Some Directory ∨
  (lookup_path (files σ) default_walletsDir = None ∧
   lookup_path (files σ) "." = Some Directory) →
  children (files σ) default_walletsDir = [] →
  (∀ e : Entropy,
      split_path (HDNodeWallet.address (createRandom e) +:+ ".json") = None) →
  ∃ (σ' : world) (loaded : list HDNodeWallet.t),
    testCreateWallets σ = (Return tt, σ') ∧
    loadWallets default_walletsDir σ' = (Return loaded, σ') ∧
    (∀ w : HDNodeWallet.t,
        w ∈ loaded ↔
        last_with_address ((λ i, createRandom (random σ i)) <$> seq 0 10)
                          (HDNodeWallet.address w) = Some w) ∧
    console σ' = console σ.
Proof.
  intros Hdir Hempty Hfree.
  unfold testCreateWallets, createWallets. unfold mbind, M_bind.
  rewrite createWallets_loop_run. cbn [app].
  change (Z.to_nat default_walletCount) with 10.
  set (ws := (λ i, createRandom (random σ i)) <$> seq 0 10).
  set (σ1 := set_random (λ i, random σ (10 + i)) σ).
  assert (Hgen : Forall generated ws).
  { apply Forall_fmap, Forall_forall. intros i _. by eexists. }
  assert (Hfree' : Forall (λ w, split_path (HDNodeWallet.address w +:+ ".json") = None) ws).
  { apply Forall_fmap, Forall_forall. intros i _. apply Hfree. }
  destruct (saveWallets_returns ws default_walletsDir σ1) as [σ' Hsave].
  - destruct Hdir as [Hd | [Hd Hparent]]; [by left | right].
    split; [done |]. unfold parent_error. cbn [files σ1 set_random].
    change (split_path default_walletsDir) with (Some (".", "wallets")).
    cbv iota beta. by rewrite Hparent.
  - eapply Forall_impl; [exact Hfree' |]. intros w Hw. split; [done |].
    intros Hl. apply lookup_children in Hl; [|done].
    cbn [files σ1 set_random] in Hl. rewrite Hempty in Hl. by apply elem_of_nil in Hl.
  - destruct (save_then_loadWallets ws default_walletsDir σ1 σ' Hgen Hfree')
      as (loaded & Hload & _ & Hmem & _); [| done | done |].
    + destruct Hdir as [Hd | [Hd _]]; [by right | by left].
    + exists σ', loaded. split; [done |]. split; [done |]. split; [done |].
      by rewrite (saveWallets_console _ _ _ _ Hsave).
Qed.


(** ** Loading: what is read and what is reported *)

Lemma scan_entry_counts (f : list (string * entry)) (dir : string)
    (names : list string) :
  length (omap (scan_wallet f dir) names) +
  length (omap (scan_failure f dir) names) ≤
  length (List.filter (λ name, endsWith name ".json") names).
Proof.
  induction names as [|name names IH]; [done |].
  cbn [omap list_omap List.filter]. unfold scan_wallet at 1, scan_failure at 1.
  unfold scan_entry at 1 2.
  destruct (endsWith name ".json"); [|done].
  destruct (match lookup_path f (dir +:+ "/" +:+ name) with
            | Some (File content) => _
            | Some Directory => _
            | None => _
            end) as [[w|]|e]; cbn [length]; lia.
Qed.

Lemma scan_failure_lines (f : list (string * entry)) (dir : string)
    (names : list string) :
  Forall (λ line, ∃ (name : string) (e : error),
              name ∈ names ∧ endsWith name ".json" = true ∧
              line = ConsoleError (load_failed +:+ dir +:+ "/" +:+ name) e)
         (omap (scan_failure f dir) names).
Proof.
  apply Forall_forall. intros line (name & Hin & Hline)%list_elem_of_omap.
  unfold scan_failure, scan_entry in Hline.
  destruct (endsWith name ".json") eqn:Hjson; [|done].
  destruct (match lookup_path f (dir +:+ "/" +:+ name) with
            | Some (File content) => _
            | Some Directory => _
            | None => _
            end) as [r|e]; [done |].
  injection Hline as <-. by exists name, e.
Qed.

(** X12. [loadWallets] changes nothing but the console.  Every line
    it writes reports an entry of the directory whose name ends in
    [.json]; each such entry accounts for at most one wallet or one line.
    The only exception it raises is ENOTDIR for the path itself, with
    nothing logged. *)
Theorem loadWallets_reads_only (dir : string) (σ : world) :
  ∃ lines : list console_line,
    (loadWallets dir σ).2 = set_console (console σ ++ lines) σ ∧
    Forall (λ line, ∃ (name : string) (e : error),
                name ∈ children (files σ) dir ∧ endsWith name ".json" = true ∧
                line = ConsoleError (load_failed +:+ dir +:+ "/" +:+ name) e)
           lines ∧
    match (loadWallets dir σ).1 with
    | Return wallets =>
      length wallets + length lines ≤
      length (List.filter (λ name, endsWith name ".json") (children (files σ) dir))
    | Throw e => e = FsError "ENOTDIR" dir ∧ lines = []
    end.
Proof.
  rewrite loadWallets_run.
  destruct (lookup_path (files σ) dir) as [[content|]|].
  - exists []. cbn [fst snd]. by rewrite set_console_nil.
  - eexists. cbn [fst snd]. split; [reflexivity |].
    split; [apply scan_failure_lines | apply scan_entry_counts].
  - exists []. cbn [fst snd]. rewrite set_console_nil.
    split; [done |]. split; [done |]. cbn. lia.
Qed.

Lemma join_ne_dir (d name : string) : d +:+ "/" +:+ name ≠ d.
Proof.
  intros Heq. apply (f_equal String.length) in Heq.
  rewrite length_append, append_String in Heq. simpl in Heq. lia.
Qed.

Lemma join_inj (d n1 n2 : string) :
  d +:+ "/" +:+ n1 = d +:+ "/" +:+ n2 → n1 = n2.
Proof.
  intros Heq. apply (inj (String.append d)) in Heq.
  rewrite !append_String, !append_empty_l in Heq. by injection Heq.
Qed.

Lemma scan_entry_other_file (f : list (string * entry)) (dir name : string)
    (e : entry) (n : string) :
  endsWith name ".json" = false →
  scan_entry (store_path f (dir +:+ "/" +:+ name) e) dir n = scan_entry f dir n.
Proof.
  intros Hname. unfold scan_entry.
  destruct (endsWith n ".json") eqn:Hn; [|done].
  rewrite lookup_store_ne; [done |].
  intros Heq%join_inj. congruence.
Qed.

(** X14. Entries whose name does not end in [.json] do not count:
    putting a file or a directory at such a name inside the directory
    changes neither what [loadWallets] returns or raises, nor what it
    writes to the console. *)
Theorem loadWallets_ignores_other_files (dir name : string) (e : entry)
    (σ : world) :
  endsWith name ".json" = false →
  loadWallets dir (set_files (store_path (files σ) (dir +:+ "/" +:+ name) e) σ) =
  ((loadWallets dir σ).1,
   set_files (store_path (files σ) (dir +:+ "/" +:+ name) e) (loadWallets dir σ).2).
Proof.
  intros Hname. rewrite !loadWallets_run. cbn [files set_files].
  rewrite lookup_store_ne by apply join_ne_dir.
  destruct (lookup_path (files σ) dir) as [[content|]|]; [done | | done].
  cbn [fst snd]. unfold scan_wallet, scan_failure.
  assert (Hchildren :
    ∃ extra : list string,
      children (store_path (files σ) (dir +:+ "/" +:+ name) e) dir =
      children (files σ) dir ++ extra ∧
      Forall (λ n, endsWith n ".json" = false) extra).
  { destruct (lookup_path (files σ) (dir +:+ "/" +:+ name)) as [e0|] eqn:Hl.
    - exists []. rewrite app_nil_r. split; [|done].
      apply children_store_present. by eexists.
    - rewrite (store_path_absent _ _ _ Hl), children_app. eexists. split; [done |].
      cbn [children].
      destruct (split_path (dir +:+ "/" +:+ name)) as [[d' name']|] eqn:Hs; [|done].
      destruct (String.eqb_spec d' dir) as [->|]; [|done].
      apply split_path_Some in Hs as [Hs _]. apply join_inj in Hs as <-.
      by apply Forall_singleton. }
  destruct Hchildren as (extra & -> & Hextra).
  assert (Hnone : ∀ (A : Type) (g : string → outcome (option HDNodeWallet.t) → option A),
             (∀ n : string, g n (Return None) = None) →
             omap (λ n, g n (scan_entry (store_path (files σ) (dir +:+ "/" +:+ name) e) dir n))
                  (children (files σ) dir ++ extra) =
             omap (λ n, g n (scan_entry (files σ) dir n)) (children (files σ) dir)).
  { intros A g Hg. rewrite omap_app.
    rewrite (omap_none _ extra), app_nil_r.
    - apply list_omap_ext, Forall2_same_length_lookup_2; [done |].
      intros i x y Hx Hy. rewrite Hx in Hy. injection Hy as <-.
      by rewrite scan_entry_other_file.
    - rewrite Forall_forall in Hextra. intros n Hn%Hextra.
      unfold scan_entry. by rewrite Hn. }
  rewrite (Hnone _ (λ _ r, match r with Return r => r | Throw _ => None end))
    by done.
  by rewrite (Hnone _ (λ n r, match r with
                              | Return _ => None
                              | Throw e0 => Some (load_failure_line (dir +:+ "/" +:+ n) e0)
                              end)) by done.
Qed.

(** X13. On a path that names a regular file [loadWallets] raises
    ENOTDIR and changes nothing: the directory is listed outside the
    [try]. *)
Theorem loadWallets_on_a_regular_file (dir content : string) (σ : world) :
  lookup_path (files σ) dir = Some (File content) →
  loadWallets dir σ = (Throw (FsError "ENOTDIR" dir), σ).
Proof. intros Hd. by rewrite loadWallets_run, Hd. Qed.

Lemma loadWallet_run (a dir : string) (σ : world) :
  loadWallet a dir σ =
  match lookup_path (files σ) (wallet_path dir a) with
  | None => (Return None, σ)
  | Some Directory =>
    (Return None,
     log_failure (wallet_path dir a) (FsError "EISDIR" (wallet_path dir a)) σ)
  | Some (File content) =>
    match JSON_parse content with
    | None => (Return None, log_failure (wallet_path dir a) SyntaxError σ)
    | Some v =>
      match recover v with
      | Return r => (Return r, σ)
      | Throw e => (Return None, log_failure (wallet_path dir a) e σ)
      end
    end
  end.
Proof.
  destruct (lookup_path (files σ) (wallet_path dir a)) as [[content|]|] eqn:Hl.
  - destruct (JSON_parse content) as [v|] eqn:Hp.
    + apply (loadWallet_parsed _ _ _ _ _ Hl Hp).
    + apply (loadWallet_unparsable _ _ _ _ Hl Hp).
  - by apply loadWallet_unreadable.
  - by apply loadWallet_missing.
Qed.

Lemma loadWallet_never_silent (a dir : string) (σ : world) :
  (∃ r : option HDNodeWallet.t, loadWallet a dir σ = (Return r, σ)) ∨
  (∃ e : error,
      loadWallet a dir σ =
      (Return None, log_failure (wallet_path dir a) e σ)).
Proof.
  rewrite loadWallet_run.
  destruct (lookup_path (files σ) (wallet_path dir a)) as [[content|]|].
  - destruct (JSON_parse content) as [v|]; [|right; by eexists].
    destruct (recover v) as [r|e]; [left | right]; by eexists.
  - right. by eexists.
  - left. by eexists.
Qed.

(** X16. [loadWallet] never raises.  Either it leaves the world as it
    was, or it returns [null] and has written one line to the console,
    which names the record path. *)
Theorem loadWallet_never_throws (a dir : string) (σ : world) :
  (∃ r : option HDNodeWallet.t, loadWallet a dir σ = (Return r, σ)) ∨
  (∃ e : error,
      loadWallet a dir σ =
      (Return None,
       set_console
         (console σ ++
          [ConsoleError (load_failed +:+ dir +:+ "/" +:+ a +:+ ".json") e]) σ)).
Proof.
  rewrite loadWallet_run.
  destruct (lookup_path (files σ) (wallet_path dir a)) as [[content|]|].
  - destruct (JSON_parse content) as [v|]; [|right; by eexists].
    destruct (recover v) as [r|e]; [left | right]; by eexists.
  - right. by eexists.
  - left. by eexists.
Qed.

(** X17. A record whose [phrase] is there but cannot be used makes
    [loadWallet] return [null]: silently when the value is falsy (the
    empty string, zero, [false], [null]), and with one line written to the
    console when it is truthy, be it a string the SDK rejects or a value
    that is not a string. *)
Theorem loadWallet_unusable_phrase (a dir content : string)
    (props : list (string * json)) (phrase : json) (σ : world) :
  lookup_path (files σ) (dir +:+ "/" +:+ a +:+ ".json") = Some (File content) →
  JSON_parse content = Some (JObject props) →
  object_get props "phrase" = Some phrase →
  (∀ p : string, phrase = JString p → fromPhrase p = None) →
  if truthy (Some phrase)
  then ∃ e : error,
         loadWallet a dir σ =
         (Return None,
          set_console
            (console σ ++
             [ConsoleError (load_failed +:+ dir +:+ "/" +:+ a +:+ ".json") e]) σ)
  else loadWallet a dir σ = (Return None, σ).
Proof.
  intros Hl Hp Hphrase Hbad.
  rewrite (loadWallet_parsed _ _ _ _ _ Hl Hp). cbn [recover]. rewrite Hphrase.
  destruct phrase as [| b | m e | p | elems | props']; cbn [truthy].
  - done.
  - destruct b; [|done]. by eexists.
  - destruct (number_truthy m e); [|done]. by eexists.
  - destruct (String.eqb p ""); cbn [negb]; [done |].
    rewrite (Hbad p eq_refl). by eexists.
  - by eexists.
  - by eexists.
Qed.

(** X9. The text [JSON.stringify] writes for the record of a wallet
    parses back to an object that holds the address, the private key and
    the public key of the wallet, whatever characters they contain, and
    its phrase when it has a mnemonic; without a mnemonic the object has
    three fields and no [phrase]. *)
Theorem getWalletData_record_round_trip (wallet : HDNodeWallet.t) :
  ∃ props : list (string * json),
    JSON_parse (JSON_stringify (getWalletData wallet)) = Some (JObject props) ∧
    object_get props "address" = Some (JString (HDNodeWallet.address wallet)) ∧
    object_get props "privateKey" = Some (JString (HDNodeWallet.privateKey wallet)) ∧
    object_get props "publicKey" = Some (JString (HDNodeWallet.publicKey wallet)) ∧
    object_get props "phrase" =
      (λ m, JString (Mnemonic.phrase m)) <$> HDNodeWallet.mnemonic wallet ∧
    length props = match HDNodeWallet.mnemonic wallet with Some _ => 4 | None => 3 end.
Proof.
  eexists. split; [apply JSON_parse_stringify |].
  by destruct wallet as [a sk pk [[p]|]].
Qed.

Lemma loadWallet_local (a dir : string) (σ1 σ2 : world) :
  lookup_path (files σ1) (wallet_path dir a) =
  lookup_path (files σ2) (wallet_path dir a) →
  (loadWallet a dir σ1).1 = (loadWallet a dir σ2).1.
Proof.
  intros Hl. rewrite !loadWallet_run, Hl.
  destruct (lookup_path (files σ2) (wallet_path dir a)) as [[content|]|]; [|done ..].
  destruct (JSON_parse content) as [v|]; [|done]. by destruct (recover v).
Qed.

(** X8. Whatever its outcome, [saveWallets] does not change what
    [loadWallet] returns, in the same directory, for an address that none
    of the saved wallets has. *)
Theorem saveWallets_preserves_other_wallets (ws : list HDNodeWallet.t)
    (dir : string) (σ σ' : world) (r : outcome unit) (a : string) :
  saveWallets ws dir σ = (r, σ') →
  (∀ w : HDNodeWallet.t, w ∈ ws → HDNodeWallet.address w ≠ a) →
  (loadWallet a dir σ').1 = (loadWallet a dir σ).1.
Proof.
  intros Hrun Hother. apply loadWallet_local.
  apply saveWallets_forEach_any in Hrun as [[-> _] | (σ0 & Hrun & Hσ0)]; [done |].
  apply forEach_save_frame in Hrun as [_ Hframe].
  rewrite Hframe.
  - destruct Hσ0 as [[_ ->] | [_ ->]]; [done |].
    cbn [files set_files]. rewrite lookup_store_ne; [done |].
    intros Heq. by apply (wallet_path_ne_dir dir a).
  - intros w Hin Heq. apply wallet_path_inj in Heq. by apply (Hother w).
Qed.

(** X15. On a directory, [loadWallets] returns exactly the wallets
    that [loadWallet] returns for the stems of the [.json] entries of the
    directory. *)
Theorem loadWallets_collects_loadWallet (dir : string) (σ : world) :
  lookup_path (files σ) dir = Some Directory →
  ∃ wallets : list HDNodeWallet.t,
    (loadWallets dir σ).1 = Return wallets ∧
    ∀ w : HDNodeWallet.t,
      w ∈ wallets ↔
      ∃ a : string,
        a +:+ ".json" ∈ children (files σ) dir ∧
        (loadWallet a dir σ).1 = Return (Some w).
Proof.
  intros Hd. rewrite loadWallets_run, Hd. eexists. split; [reflexivity |].
  assert (Hsame : ∀ a : string,
             (loadWallet a dir σ).1 = Return (scan_wallet (files σ) dir (a +:+ ".json"))).
  { intros a. rewrite loadWallet_run. unfold scan_wallet, scan_entry, wallet_path.
    rewrite (proj2 (endsWith_spec _ ".json")) by (by eexists).
    destruct (lookup_path (files σ) (dir +:+ "/" +:+ a +:+ ".json")) as [[content|]|];
      [|done ..].
    destruct (JSON_parse content) as [v|]; [|done]. by destruct (recover v). }
  intros w. rewrite list_elem_of_omap. split.
  - intros (name & Hin & Hw).
    assert (Hjson : endsWith name ".json" = true).
    { unfold scan_wallet, scan_entry in Hw. by destruct (endsWith name ".json"). }
    apply endsWith_spec in Hjson as [a ->].
    exists a. split; [done |]. by rewrite Hsame, Hw.
  - intros (a & Hin & Hw). exists (a +:+ ".json"). split; [done |].
    rewrite Hsame in Hw. by injection Hw.
Qed.


(** ** The transfer test, outcome by outcome *)

Lemma testTransfer_run (σ : world) :
  testTransfer σ =
  let address := env σ !! "TEST_WALLET_ADDRESS" in
  let recipient := env σ !! "TEST_RECIPIENT_ADDRESS" in
  let count := CallGetTransactionCount address "pending" in
  if nonempty (env σ !! "PROVIDER_URL") then
    match loadWallet (interpolate address) default_walletsDir σ with
    | (Throw e, σ1) => (Throw e, σ1)
    | (Return None, σ1) =>
      (Throw (Error ("Wallet " +:+ interpolate address +:+ " not found")), σ1)
    | (Return (Some w), σ1) =>
      if nonempty recipient then
        match getTransactionCount (node σ1) address "pending" with
        | Throw e => (Throw e, set_calls (calls σ1 ++ [count]) σ1)
        | Return n =>
          match getFeeData (node σ1) with
          | Throw e => (Throw e, set_calls (calls σ1 ++ [count; CallGetFeeData]) σ1)
          | Return fee =>
            match parseEther "0.1" with
            | None =>
              (Throw (SdkError "invalid FixedNumber string value"),
               set_calls (calls σ1 ++ [count; CallGetFeeData]) σ1)
            | Some value =>
              let tx := transfer_request (interpolate recipient) value n fee in
              (Throw (SdkError "missing provider"),
               set_calls (calls σ1 ++ [count; CallGetFeeData;
                                       CallSendTransaction w tx]) σ1)
            end
          end
        end
      else (Throw (Error "TEST_RECIPIENT_ADDRESS is not defined"), σ1)
    end
  else (Throw (Error "PROVIDER_URL is not defined"), σ).
Proof.
  cbv zeta.
  unfold testTransfer. unfold mbind at 1, M_bind at 1. unfold process_env at 1.
  destruct (nonempty (env σ !! "PROVIDER_URL")); cbn [negb]; [|done].
  unfold mbind at 1, M_bind at 1. unfold process_env at 1.
  unfold mbind at 1, M_bind at 1.
  destruct (loadWallet_only_logs (interpolate (env σ !! "TEST_WALLET_ADDRESS"))
              default_walletsDir σ) as (r & c & ->).
  destruct r as [w|]; [|done].
  unfold mbind at 1, M_bind at 1. unfold process_env at 1.
  cbn [env set_console].
  destruct (nonempty (env σ !! "TEST_RECIPIENT_ADDRESS")); cbn [negb]; [|done].
  unfold provider_getTransactionCount, provider_getFeeData,
    wallet_sendTransaction, transaction_wait, rpc, console_log, lift_option.
  unfold mbind, M_bind, mret, M_ret, throw. simpl_world.
  destruct (getTransactionCount (node σ) _ _) as [n|]; [|done]. simpl_world.
  destruct (getFeeData (node σ)) as [fee|];
    [|simpl_world; by rewrite <- !app_assoc]. simpl_world.
  destruct (parseEther "0.1") as [value|];
    simpl_world; by rewrite <- !app_assoc.
Qed.

Lemma nonempty_false (v : option string) :
  nonempty v = false ↔ v = None ∨ v = Some "".
Proof.
  destruct v as [s|]; cbn [nonempty].
  - destruct (String.eqb_spec s "") as [->|Hne]; cbn [negb].
    + split; [by right | done].
    + split; [done |]. by intros [? | [= ?]].
  - split; [by left | done].
Qed.

(** X18. When [PROVIDER_URL] is unset or empty, or no wallet is loaded
    for [TEST_WALLET_ADDRESS], or [TEST_RECIPIENT_ADDRESS] is unset or
    empty, [testTransfer] raises one of its three errors, calls no node
    and changes no file. *)
Theorem testTransfer_guards (σ σ' : world) (r : outcome unit) :
  testTransfer σ = (r, σ') →
  (env σ !! "PROVIDER_URL" = None ∨ env σ !! "PROVIDER_URL" = Some "") ∨
  (loadWallet (default "undefined" (env σ !! "TEST_WALLET_ADDRESS"))
              "./wallets" σ).1 = Return None ∨
  (env σ !! "TEST_RECIPIENT_ADDRESS" = None ∨
   env σ !! "TEST_RECIPIENT_ADDRESS" = Some "") →
  calls σ' = calls σ ∧
  files σ' = files σ ∧
  (r = Throw (Error "PROVIDER_URL is not defined") ∨
   r = Throw (Error ("Wallet " +:+ default "undefined" (env σ !! "TEST_WALLET_ADDRESS")
                     +:+ " not found")) ∨
   r = Throw (Error "TEST_RECIPIENT_ADDRESS is not defined")).
Proof.
  rewrite testTransfer_run. cbv zeta. rewrite <- !nonempty_false.
  fold (interpolate (env σ !! "TEST_WALLET_ADDRESS")). fold default_walletsDir.
  destruct (nonempty (env σ !! "PROVIDER_URL")).
  2: { intros [= <- <-] _. repeat split. by left. }
  destruct (loadWallet_only_logs (interpolate (env σ !! "TEST_WALLET_ADDRESS"))
              default_walletsDir σ) as (loaded & c & ->). cbn [fst].
  destruct loaded as [w|].
  2: { intros [= <- <-] _. repeat split. right. by left. }
  destruct (nonempty (env σ !! "TEST_RECIPIENT_ADDRESS")).
  - intros _ [? | [? | ?]]; done.
  - intros [= <- <-] _. repeat split. right. by right.
Qed.

(** X19. With a provider configured and no record file for the
    configured address, [testTransfer] raises [Wallet <address> not found]
    and changes nothing.  An unset [TEST_WALLET_ADDRESS] is looked up as
    [./wallets/undefined.json] and reported as [Wallet undefined not
    found]. *)
Theorem testTransfer_wallet_not_found (σ : world) (url : string) :
  env σ !! "PROVIDER_URL" = Some url →
  url ≠ "" →
  lookup_path (files σ)
    ("./wallets/" +:+ default "undefined" (env σ !! "TEST_WALLET_ADDRESS") +:+ ".json")
    = None →
  testTransfer σ =
  (Throw (Error ("Wallet " +:+ default "undefined" (env σ !! "TEST_WALLET_ADDRESS")
                 +:+ " not found")), σ).
Proof.
  intros Hurl Hne Hl. rewrite testTransfer_run. cbv zeta.
  rewrite Hurl. cbn [nonempty]. rewrite (proj2 (String.eqb_neq _ _) Hne). cbn [negb].
  by rewrite loadWallet_missing.
Qed.

(** X20. Whatever its outcome, [testTransfer] changes no file, and the
    calls it makes are: none; or the pending transaction count of the
    configured address; or that and the fee data; or those two and one
    submission, signed by the wallet loaded for the configured address.
    It never waits on a transaction. *)
Theorem testTransfer_call_order (σ σ' : world) (r : outcome unit) :
  testTransfer σ = (r, σ') →
  files σ' = files σ ∧
  ∃ made : list rpc_call,
    calls σ' = calls σ ++ made ∧
    (made = [] ∨
     made = [CallGetTransactionCount (env σ !! "TEST_WALLET_ADDRESS") "pending"] ∨
     made = [CallGetTransactionCount (env σ !! "TEST_WALLET_ADDRESS") "pending";
             CallGetFeeData] ∨
     ∃ (w : HDNodeWallet.t) (tx : list (string * jsval)),
       (loadWallet (default "undefined" (env σ !! "TEST_WALLET_ADDRESS"))
                   "./wallets" σ).1 = Return (Some w) ∧
       made = [CallGetTransactionCount (env σ !! "TEST_WALLET_ADDRESS") "pending";
               CallGetFeeData; CallSendTransaction w tx]).
Proof.
  rewrite testTransfer_run. cbv zeta.
  fold (interpolate (env σ !! "TEST_WALLET_ADDRESS")). fold default_walletsDir.
  destruct (nonempty (env σ !! "PROVIDER_URL")).
  2: { intros [= <- <-]. split; [done |]. exists []. rewrite app_nil_r.
       split; [done | by left]. }
  destruct (loadWallet_only_logs (interpolate (env σ !! "TEST_WALLET_ADDRESS"))
              default_walletsDir σ) as (loaded & c & Hload).
  rewrite Hload. cbn [fst].
  destruct loaded as [w|].
  2: { intros [= <- <-]. split; [done |]. exists []. rewrite app_nil_r.
       split; [done | by left]. }
  destruct (nonempty (env σ !! "TEST_RECIPIENT_ADDRESS")).
  2: { intros [= <- <-]. split; [done |]. exists []. rewrite app_nil_r.
       split; [done | by left]. }
  simpl_world.
  destruct (getTransactionCount (node σ) _ _) as [n|e].
  2: { intros [= <- <-]. split; [done |]. eexists.
       split; [reflexivity |]. right. by left. }
  destruct (getFeeData (node σ)) as [fee|e].
  2: { intros [= <- <-]. split; [done |]. eexists.
       split; [reflexivity |]. right. right. by left. }
  destruct (parseEther "0.1") as [value|].
  2: { intros [= <- <-]. split; [done |]. eexists.
       split; [reflexivity |]. right. right. by left. }
  intros [= <- <-]. split; [done |]. eexists.
  split; [reflexivity |]. right. right. right. by eexists w, _.
Qed.


(** X22. [testTransfer] never writes the receipt line.  It writes nothing
    to the console, or the one line by which [loadWallet] reports the
    record it could not read. *)
Theorem testTransfer_never_reports_receipt (σ σ' : world) (r : outcome unit) :
  testTransfer σ = (r, σ') →
  console σ' = console σ ∨
  ∃ e : error,
    console σ' =
    console σ ++
    [ConsoleError
       (load_failed +:+ "./wallets/" +:+
        default "undefined" (env σ !! "TEST_WALLET_ADDRESS") +:+ ".json") e].
Proof.
  rewrite testTransfer_run. cbv zeta.
  fold (interpolate (env σ !! "TEST_WALLET_ADDRESS")).
  destruct (nonempty (env σ !! "PROVIDER_URL")); [|intros [= <- <-]; by left].
  destruct (loadWallet_never_silent (interpolate (env σ !! "TEST_WALLET_ADDRESS"))
              default_walletsDir σ) as [[loaded Hload] | [e Hload]]; rewrite Hload.
  2: { intros [= <- <-]. right. by exists e. }
  destruct loaded as [w|]; [|intros [= <- <-]; by left].
  destruct (nonempty (env σ !! "TEST_RECIPIENT_ADDRESS")); [|intros [= <- <-]; by left].
  destruct (getTransactionCount (node σ) _ _) as [n|e]; [|intros [= <- <-]; by left].
  destruct (getFeeData (node σ)) as [fee|e]; [|intros [= <- <-]; by left].
  destruct (parseEther "0.1") as [value|]; intros [= <- <-]; by left.
Qed.

(** C6.  The request [testTransfer] submits does not carry the count it
    has read as its [nonce].  Whatever the node, when the three settings
    are there, a wallet is loaded for the configured address, and the node
    answers the pending transaction count [n] and the fee data, the code
    makes these two calls in this order and then hands the wallet a
    request that goes to the recipient with the value of 0.1 ether, a gas
    limit of 21000 and the gas price of the fee data.  The count sits in
    that request under the key [nounce], and the request has no [nonce]
    field.  The run ends there, in an exception: nothing is waited for and
    no receipt is written. *)
Theorem testTransfer_request_lacks_nonce (σ : world) (url recipient : string)
    (w : HDNodeWallet.t) (n value : Z) (fee : FeeData) :
  env σ !! "PROVIDER_URL" = Some url →
  url ≠ "" →
  (loadWallet (default "undefined" (env σ !! "TEST_WALLET_ADDRESS"))
              "./wallets" σ).1 = Return (Some w) →
  env σ !! "TEST_RECIPIENT_ADDRESS" = Some recipient →
  recipient ≠ "" →
  getTransactionCount (node σ) (env σ !! "TEST_WALLET_ADDRESS") "pending"
    = Return n →
  getFeeData (node σ) = Return fee →
  parseEther "0.1" = Some value →
  let tx := [("to", VString recipient); ("value", VBigInt value);
             ("nounce", VNumber n); ("gasLimit", VNumber 21000);
             ("gasPrice", match gasPrice fee with
                          | Some price => VBigInt price
                          | None => VNull
                          end)] in
  ∃ (e : error) (σ' : world),
    testTransfer σ = (Throw e, σ') ∧
    calls σ' =
      calls σ ++
      [CallGetTransactionCount (env σ !! "TEST_WALLET_ADDRESS") "pending";
       CallGetFeeData;
       CallSendTransaction w tx] ∧
    console σ' = console σ ∧
    object_get tx "nounce" = Some (VNumber n) ∧
    object_get tx "nonce" = None.
Proof.
  intros Hurl Hne Hload Hrecipient Hne' Hcount Hfee Hvalue tx.
  rewrite testTransfer_run. cbv zeta.
  fold (interpolate (env σ !! "TEST_WALLET_ADDRESS")) in Hload.
  fold default_walletsDir in Hload.
  rewrite Hurl, Hrecipient. cbn [nonempty].
  rewrite (proj2 (String.eqb_neq _ _) Hne), (proj2 (String.eqb_neq _ _) Hne').
  cbn [negb].
  destruct (loadWallet_never_silent (interpolate (env σ !! "TEST_WALLET_ADDRESS"))
              default_walletsDir σ) as [[loaded Hrun] | [e Hrun]];
    rewrite Hrun in Hload |- *; cbn [fst] in Hload; [|done].
  injection Hload as ->.
  rewrite Hcount, Hfee, Hvalue.
  eexists _, _. split; [reflexivity |]. simpl_world.
  split; [done |]. split; [done |]. by split.
Qed.

End Behaviour.

(** * The properties on concrete worlds *)

Lemma save_load_round_trip_witness :
  ∃ w' : HDNodeWallet.t,
    loadWallet (H := Demo.sdk) (HDNodeWallet.address Demo.alice) "./wallets" Demo.saved
      = (Return (Some w'), Demo.saved) ∧
    HDNodeWallet.address w' = HDNodeWallet.address Demo.alice ∧
    HDNodeWallet.publicKey w' = HDNodeWallet.publicKey Demo.alice ∧
    HDNodeWallet.privateKey w' = HDNodeWallet.privateKey Demo.alice.
Proof.
  apply (save_load_round_trip (H := Demo.sdk) 2 Demo.fresh Demo.created
           [Demo.alice; Demo.bob] [Demo.alice; Demo.bob] Demo.alice
           "./wallets" Demo.created Demo.saved).
  - reflexivity.
  - apply list_elem_of_here.
  - apply list_elem_of_here.
  - intros w2 Hin Haddr.
    apply elem_of_cons in Hin as [-> | Hin]; [reflexivity |].
    apply list_elem_of_singleton in Hin as ->. discriminate Haddr.
  - reflexivity.
Defined.



Lemma loadWallets_corrupt_file_isolated_witness :
  ∃ e : error,
    loadWallets (H := Demo.sdk) "./wallets" Demo.corrupt =
    (Return [Demo.alice],
     set_console
       (console Demo.corrupt ++
        [ConsoleError (load_failed +:+ "./wallets" +:+ "/" +:+ "notes.json") e])
       Demo.corrupt).
Proof.
  apply (loadWallets_corrupt_file_isolated (H := Demo.sdk)
           "./wallets" (HDNodeWallet.address Demo.alice +:+ ".json") "notes.json"
           (JSON_stringify (getWalletData Demo.alice))
           (string_props (WalletData_fields (getWalletData Demo.alice)))
           Demo.alice_phrase Demo.alice Demo.corrupt).
  - reflexivity.
  - apply perm_swap.
  - reflexivity.
  - reflexivity.
  - vm_compute. reflexivity.
  - reflexivity.
  - reflexivity.
  - reflexivity.
  - right. exists "{ not json". split; reflexivity.
Defined.

Lemma loadWallets_skips_phraseless_witness :
  (loadWallets (H := Demo.sdk) "./wallets" Demo.mixed).1 = Return [Demo.alice] ∧
  recovered (H := Demo.sdk) (files Demo.mixed) "./wallets"
    (HDNodeWallet.address Demo.carol +:+ ".json") = None ∧
  loadWallets_callback (H := Demo.sdk) "./wallets" [Demo.bob]
    (HDNodeWallet.address Demo.carol +:+ ".json") Demo.mixed
    = (Return [Demo.bob], Demo.mixed).
Proof.
  destruct (loadWallets_skips_phraseless (H := Demo.sdk) "./wallets" Demo.mixed eq_refl)
    as (wallets & σ' & Hrun & Hwallets & _ & Hskip).
  split; [rewrite Hrun, Hwallets; reflexivity |].
  destruct (Hskip (HDNodeWallet.address Demo.carol +:+ ".json")
              (JSON_stringify (getWalletData Demo.carol))
              (string_props (WalletData_fields (getWalletData Demo.carol))))
    as [Hnone Hcallback].
  - reflexivity.
  - vm_compute. reflexivity.
  - reflexivity.
  - split; [exact Hnone | apply Hcallback].
Defined.

Lemma loadWallet_absent_or_unreadable_witness :
  loadWallet (H := Demo.sdk) (HDNodeWallet.address Demo.bob) "./wallets" Demo.corrupt
    = (Return None, Demo.corrupt) ∧
  ∃ e : error,
    loadWallet (H := Demo.sdk) "notes" "./wallets" Demo.corrupt =
    (Return None,
     set_console
       (console Demo.corrupt ++
        [ConsoleError (load_failed +:+ "./wallets" +:+ "/" +:+ "notes" +:+ ".json") e])
       Demo.corrupt).
Proof.
  split.
  - apply (proj1 (loadWallet_absent_or_unreadable (H := Demo.sdk)
                    (HDNodeWallet.address Demo.bob) "./wallets" Demo.corrupt)).
    reflexivity.
  - apply (proj2 (loadWallet_absent_or_unreadable (H := Demo.sdk)
                    "notes" "./wallets" Demo.corrupt)).
    right. exists "{ not json". split; reflexivity.
Defined.

Lemma saveWallets_store_invariant_witness :
  store_invariant "./wallets" (files Demo.overwritten) ∧
  lookup_path (files Demo.overwritten) (Demo.record_path Demo.alice) =
    Some (Demo.record_file Demo.mallory) ∧
  (loadWallet (H := Demo.sdk) (HDNodeWallet.address Demo.alice) "./wallets"
     Demo.overwritten).1 = Return (Some Demo.bob).
Proof.
  destruct (saveWallets_store_invariant (H := Demo.sdk)
              [Demo.alice; Demo.mallory] "./wallets" Demo.fresh Demo.overwritten
              eq_refl)
    as (Hinv & _ & Hall).
  split.
  - apply Hinv. intros stem content Hl. vm_compute in Hl. discriminate Hl.
  - destruct (Hall Demo.alice (list_elem_of_here _ _))
      as (w_last & Hlast & Hfile & _ & Hload).
    injection Hlast as <-. split; [exact Hfile |].
    exact (eq_trans
             (Hload Demo.fresh
                (Demo.after (saveWallets [Demo.mallory] "./wallets") Demo.fresh) eq_refl)
             eq_refl).
Defined.

Lemma recovery_depends_on_phrase_only_witness :
  let σ1 := set_files (store_path (files Demo.saved) (Demo.record_path Demo.alice)
                         (Demo.record_file Demo.alice)) Demo.saved in
  let σ2 := set_files (store_path (files Demo.saved) (Demo.record_path Demo.alice)
                         (Demo.record_file Demo.eve)) Demo.saved in
  (loadWallet (H := Demo.sdk) (HDNodeWallet.address Demo.alice) "./wallets" σ1).1 =
  (loadWallet (H := Demo.sdk) (HDNodeWallet.address Demo.alice) "./wallets" σ2).1 ∧
  (loadWallets (H := Demo.sdk) "./wallets" σ1).1 =
  (loadWallets (H := Demo.sdk) "./wallets" σ2).1 ∧
  (loadWallet (H := Demo.sdk) (HDNodeWallet.address Demo.alice) "./wallets" σ2).1 =
  Return (Some Demo.alice) ∧
  HDNodeWallet.privateKey Demo.alice ≠ HDNodeWallet.privateKey Demo.eve ∧
  ∃ wallets : list HDNodeWallet.t,
    (loadWallets (H := Demo.sdk) "./wallets" σ2).1 = Return wallets ∧
    Demo.alice ∈ wallets.
Proof.
  intros σ1 σ2.
  destruct (recovery_depends_on_phrase_only (H := Demo.sdk) Demo.saved
              (Demo.record_path Demo.alice)
              (JSON_stringify (getWalletData Demo.alice))
              (JSON_stringify (getWalletData Demo.eve))
              (string_props (WalletData_fields (getWalletData Demo.alice)))
              (string_props (WalletData_fields (getWalletData Demo.eve)))
              (HDNodeWallet.address Demo.alice) "./wallets")
    as (Hone & Hall & Hphrase).
  - vm_compute. reflexivity.
  - vm_compute. reflexivity.
  - reflexivity.
  - destruct (Hphrase Demo.alice_phrase eq_refl eq_refl) as (_ & Hload & Hin).
    destruct (Hin Demo.alice eq_refl eq_refl eq_refl) as (wallets & _ & Hws & Halice).
    split; [exact Hone |]. split; [exact Hall |]. split; [exact Hload |].
    split; [discriminate |]. exists wallets. split; [exact Hws | exact Halice].
Defined.

Lemma loadWallet_no_address_check_witness :
  ∃ w' : HDNodeWallet.t,
    loadWallet (H := Demo.sdk) (HDNodeWallet.address Demo.alice) "./wallets"
      Demo.overwritten = (Return (Some w'), Demo.overwritten) ∧
    HDNodeWallet.address w' ≠ HDNodeWallet.address Demo.alice.
Proof.
  apply (loadWallet_no_address_check (H := Demo.sdk)
           (HDNodeWallet.address Demo.alice) "./wallets"
           (JSON_stringify (getWalletData Demo.mallory))
           (string_props (WalletData_fields (getWalletData Demo.mallory)))
           Demo.bob_phrase Demo.bob Demo.overwritten).
  - reflexivity.
  - vm_compute. reflexivity.
  - reflexivity.
  - reflexivity.
  - discriminate.
Defined.

Lemma loadWallet_phraseless_is_null_witness :
  (loadWallet (H := Demo.sdk) (HDNodeWallet.address Demo.carol) "./wallets"
     Demo.mixed).1 = Return None ∧
  loadWallet (H := Demo.sdk) (HDNodeWallet.address Demo.carol) "./wallets" Demo.mixed
    = (Return None, Demo.mixed).
Proof.
  destruct (loadWallet_phraseless_is_null (H := Demo.sdk)
              (HDNodeWallet.address Demo.carol) "./wallets"
              (JSON_stringify (getWalletData Demo.carol))
              (WalletData_json (getWalletData Demo.carol)) Demo.mixed)
    as [Hnull Hsame].
  - reflexivity.
  - vm_compute. reflexivity.
  - reflexivity.
  - split; [exact Hnull | apply Hsame; discriminate].
Defined.

Lemma testTransfer_request_lacks_nonce_witness :
  ∃ (e : error) (σ' : world),
    testTransfer (H := Demo.sdk) Demo.saved = (Throw e, σ') ∧
    calls σ' =
      calls Demo.saved ++
      [CallGetTransactionCount (Some (HDNodeWallet.address Demo.alice)) "pending";
       CallGetFeeData;
       CallSendTransaction Demo.alice
         [("to", VString (HDNodeWallet.address Demo.bob));
          ("value", VBigInt (10 ^ 17));
          ("nounce", VNumber 7);
          ("gasLimit", VNumber 21000);
          ("gasPrice", VBigInt 20000000000)]] ∧
    console σ' = console Demo.saved ∧
    object_get
      [("to", VString (HDNodeWallet.address Demo.bob));
       ("value", VBigInt (10 ^ 17)%Z);
       ("nounce", VNumber 7);
       ("gasLimit", VNumber 21000);
       ("gasPrice", VBigInt 20000000000)] "nounce" = Some (VNumber 7) ∧
    object_get
      [("to", VString (HDNodeWallet.address Demo.bob));
       ("value", VBigInt (10 ^ 17)%Z);
       ("nounce", VNumber 7);
       ("gasLimit", VNumber 21000);
       ("gasPrice", VBigInt 20000000000)] "nonce" = None.
Proof.
  exact (testTransfer_request_lacks_nonce (H := Demo.sdk) Demo.saved
           "http://127.0.0.1:8545" (HDNodeWallet.address Demo.bob) Demo.alice
           7 (10 ^ 17) {| gasPrice := Some 20000000000%Z |}
           eq_refl ltac:(discriminate) eq_refl eq_refl ltac:(discriminate)
           eq_refl eq_refl eq_refl).
Defined.

(** ** The further properties on concrete worlds *)

Lemma saveWallets_returns_when_writable_witness :
  ∃ σ' : world,
    saveWallets [Demo.alice; Demo.bob] "./wallets" Demo.fresh = (Return tt, σ') ∧
    lookup_path (files σ') "./wallets" = Some Directory.
Proof.
  apply (saveWallets_returns_when_writable [Demo.alice; Demo.bob] "./wallets"
           Demo.fresh).
  - reflexivity.
  - right. split; [reflexivity |]. exists ".", "wallets". split; reflexivity.
  - repeat (apply List.Forall_cons;
            [split; [reflexivity | intros Hl; vm_compute in Hl; discriminate Hl] |]).
    apply List.Forall_nil.
Defined.

Lemma saveWallets_touches_only_its_records_witness :
  lookup_path (files Demo.saved) "." = lookup_path (files Demo.created) "." ∧
  console Demo.saved = console Demo.created ∧
  calls Demo.saved = calls Demo.created.
Proof.
  apply (saveWallets_touches_only_its_records [Demo.alice; Demo.bob] "./wallets"
           Demo.created Demo.saved (Return tt) ".").
  - reflexivity.
  - reflexivity.
  - intros w Hin.
    apply elem_of_cons in Hin as [-> | Hin]; [reflexivity |].
    apply list_elem_of_singleton in Hin as ->. reflexivity.
  - reflexivity.
  - discriminate.
  - intros w Hin Heq.
    apply elem_of_cons in Hin as [-> | Hin]; [vm_compute in Heq; discriminate Heq |].
    apply list_elem_of_singleton in Hin as ->. vm_compute in Heq. discriminate Heq.
Defined.

Lemma saveWallets_stops_at_first_failure_witness :
  saveWallets ([Demo.alice] ++ Demo.bob :: [Demo.carol]) "./wallets" Demo.blocked =
  (Throw (FsError "EISDIR"
            ("./wallets" +:+ "/" +:+ HDNodeWallet.address Demo.bob +:+ ".json")),
   Demo.after (saveWallets [Demo.alice] "./wallets") Demo.blocked).
Proof.
  apply (saveWallets_stops_at_first_failure [Demo.alice] [Demo.carol] Demo.bob
           "./wallets" Demo.blocked
           (Demo.after (saveWallets [Demo.alice] "./wallets") Demo.blocked)).
  - reflexivity.
  - reflexivity.
Defined.


Lemma saveWallets_on_a_file_witness :
  saveWallets [] "./wallets/notes.json" Demo.mixed = (Return tt, Demo.mixed) ∧
  saveWallets [Demo.alice; Demo.bob] "./wallets/notes.json" Demo.mixed =
  (Throw (FsError "ENOTDIR"
            ("./wallets/notes.json" +:+ "/" +:+ HDNodeWallet.address Demo.alice
             +:+ ".json")),
   Demo.mixed).
Proof.
  destruct (saveWallets_on_a_file "./wallets/notes.json" "{ not json" Demo.mixed
              eq_refl) as [Hnone Hsome].
  split; [exact Hnone |]. apply Hsome; reflexivity.
Defined.

Lemma saveWallets_idempotent_witness :
  saveWallets [Demo.alice; Demo.mallory] "./wallets" Demo.overwritten =
  (Return tt, Demo.overwritten).
Proof.
  apply (saveWallets_idempotent [Demo.alice; Demo.mallory] "./wallets" Demo.fresh
           Demo.overwritten).
  reflexivity.
Defined.

Lemma saveWallets_preserves_other_wallets_witness :
  (loadWallet (H := Demo.sdk) (HDNodeWallet.address Demo.bob) "./wallets"
     (Demo.after (saveWallets [Demo.mallory] "./wallets") Demo.saved)).1 =
  (loadWallet (H := Demo.sdk) (HDNodeWallet.address Demo.bob) "./wallets"
     Demo.saved).1.
Proof.
  apply (saveWallets_preserves_other_wallets (H := Demo.sdk) [Demo.mallory]
           "./wallets" Demo.saved
           (Demo.after (saveWallets [Demo.mallory] "./wallets") Demo.saved)
           (Return tt)).
  - reflexivity.
  - intros w Hin Heq. apply list_elem_of_singleton in Hin as ->. discriminate Heq.
Defined.

Lemma saved_wallets_load_back_witness :
  ∃ loaded : list HDNodeWallet.t,
    loadWallets (H := Demo.sdk) "./wallets" Demo.saved = (Return loaded, Demo.saved) ∧
    loaded ≡ₚ [Demo.alice; Demo.bob].
Proof.
  destruct (saved_wallets_load_back (H := Demo.sdk) 2 Demo.fresh Demo.created
              [Demo.alice; Demo.bob] "./wallets" Demo.created Demo.saved)
    as (loaded & Hload & _ & _ & Hperm).
  - reflexivity.
  - repeat (apply List.Forall_cons; [reflexivity |]). apply List.Forall_nil.
  - left. reflexivity.
  - reflexivity.
  - reflexivity.
  - exists loaded. split; [exact Hload |]. apply Hperm.
    apply (bool_decide_unpack _). vm_compute. exact I.
Defined.

Lemma testCreateWallets_then_loadWallets_witness :
  ∃ (σ' : world) (loaded : list HDNodeWallet.t),
    testCreateWallets (H := Demo.sdk) Demo.fresh = (Return tt, σ') ∧
    loadWallets (H := Demo.sdk) default_walletsDir σ' = (Return loaded, σ') ∧
    (∀ w : HDNodeWallet.t,
        w ∈ loaded ↔
        last_with_address
          ((λ i, createRandom (Ethers := Demo.sdk) (random Demo.fresh i)) <$> seq 0 10)
          (HDNodeWallet.address w) = Some w) ∧
    console σ' = console Demo.fresh.
Proof.
  apply (testCreateWallets_then_loadWallets (H := Demo.sdk) Demo.fresh).
  - right. split; reflexivity.
  - reflexivity.
  - intros e. cbn [createRandom Demo.sdk]. unfold Demo.from_entropy.
    destruct (N.even e); reflexivity.
Defined.

Lemma loadWallets_on_a_regular_file_witness :
  loadWallets (H := Demo.sdk) (Demo.record_path Demo.alice) Demo.saved =
  (Throw (FsError "ENOTDIR" (Demo.record_path Demo.alice)), Demo.saved).
Proof.
  apply (loadWallets_on_a_regular_file (H := Demo.sdk) (Demo.record_path Demo.alice)
           (JSON_stringify (getWalletData Demo.alice)) Demo.saved).
  reflexivity.
Defined.

Lemma loadWallets_ignores_other_files_witness :
  loadWallets (H := Demo.sdk) "./wallets"
    (set_files (store_path (files Demo.mixed) ("./wallets" +:+ "/" +:+ "README.md")
                  (File "wallet records")) Demo.mixed) =
  ((loadWallets (H := Demo.sdk) "./wallets" Demo.mixed).1,
   set_files (store_path (files Demo.mixed) ("./wallets" +:+ "/" +:+ "README.md")
                (File "wallet records"))
             (loadWallets (H := Demo.sdk) "./wallets" Demo.mixed).2).
Proof.
  apply (loadWallets_ignores_other_files (H := Demo.sdk) "./wallets" "README.md"
           (File "wallet records") Demo.mixed).
  reflexivity.
Defined.

Lemma loadWallets_collects_loadWallet_witness :
  ∃ wallets : list HDNodeWallet.t,
    (loadWallets (H := Demo.sdk) "./wallets" Demo.mixed).1 = Return wallets ∧
    ∀ w : HDNodeWallet.t,
      w ∈ wallets ↔
      ∃ a : string,
        a +:+ ".json" ∈ children (files Demo.mixed) "./wallets" ∧
        (loadWallet (H := Demo.sdk) a "./wallets" Demo.mixed).1 = Return (Some w).
Proof.
  apply (loadWallets_collects_loadWallet (H := Demo.sdk) "./wallets" Demo.mixed).
  reflexivity.
Defined.

Lemma loadWallet_unusable_phrase_witness :
  ∃ e : error,
    loadWallet (H := Demo.sdk) (HDNodeWallet.address Demo.dave) "./wallets"
      Demo.unusable =
    (Return None,
     set_console
       (console Demo.unusable ++
        [ConsoleError
           (load_failed +:+ "./wallets" +:+ "/" +:+ HDNodeWallet.address Demo.dave
            +:+ ".json") e])
       Demo.unusable).
Proof.
  apply (loadWallet_unusable_phrase (H := Demo.sdk)
           (HDNodeWallet.address Demo.dave) "./wallets"
           (JSON_stringify (getWalletData Demo.dave))
           (string_props (WalletData_fields (getWalletData Demo.dave)))
           (JString "not a mnemonic") Demo.unusable).
  - reflexivity.
  - vm_compute. reflexivity.
  - reflexivity.
  - intros p [= <-]. reflexivity.
Defined.

Lemma testTransfer_guards_witness :
  calls (Demo.after (testTransfer (H := Demo.sdk)) Demo.fresh) = calls Demo.fresh ∧
  files (Demo.after (testTransfer (H := Demo.sdk)) Demo.fresh) = files Demo.fresh ∧
  ((testTransfer (H := Demo.sdk) Demo.fresh).1
     = Throw (Error "PROVIDER_URL is not defined") ∨
   (testTransfer (H := Demo.sdk) Demo.fresh).1
     = Throw (Error ("Wallet " +:+
                     default "undefined" (env Demo.fresh !! "TEST_WALLET_ADDRESS")
                     +:+ " not found")) ∨
   (testTransfer (H := Demo.sdk) Demo.fresh).1
     = Throw (Error "TEST_RECIPIENT_ADDRESS is not defined")).
Proof.
  apply (testTransfer_guards (H := Demo.sdk) Demo.fresh
           (Demo.after (testTransfer (H := Demo.sdk)) Demo.fresh)
           (testTransfer (H := Demo.sdk) Demo.fresh).1).
  - apply surjective_pairing.
  - right. left. vm_compute. reflexivity.
Defined.

Lemma testTransfer_wallet_not_found_witness :
  testTransfer (H := Demo.sdk) Demo.unset =
  (Throw (Error "Wallet undefined not found"), Demo.unset).
Proof.
  exact (eq_trans
           (testTransfer_wallet_not_found (H := Demo.sdk) Demo.unset
              "http://127.0.0.1:8545" eq_refl ltac:(discriminate) eq_refl)
           eq_refl).
Defined.

Lemma testTransfer_call_order_witness :
  files (Demo.after (testTransfer (H := Demo.sdk)) Demo.saved) = files Demo.saved ∧
  ∃ made : list rpc_call,
    calls (Demo.after (testTransfer (H := Demo.sdk)) Demo.saved) =
      calls Demo.saved ++ made ∧
    (made = [] ∨
     made = [CallGetTransactionCount (env Demo.saved !! "TEST_WALLET_ADDRESS")
               "pending"] ∨
     made = [CallGetTransactionCount (env Demo.saved !! "TEST_WALLET_ADDRESS")
               "pending";
             CallGetFeeData] ∨
     ∃ (w : HDNodeWallet.t) (tx : list (string * jsval)),
       (loadWallet (H := Demo.sdk)
          (default "undefined" (env Demo.saved !! "TEST_WALLET_ADDRESS"))
          "./wallets" Demo.saved).1 = Return (Some w) ∧
       made = [CallGetTransactionCount (env Demo.saved !! "TEST_WALLET_ADDRESS")
                 "pending";
               CallGetFeeData; CallSendTransaction w tx]).
Proof.
  apply (testTransfer_call_order (H := Demo.sdk) Demo.saved
           (Demo.after (testTransfer (H := Demo.sdk)) Demo.saved)
           (testTransfer (H := Demo.sdk) Demo.saved).1).
  apply surjective_pairing.
Defined.

Lemma testTransfer_never_reports_receipt_witness :
  console (Demo.after (testTransfer (H := Demo.sdk)) Demo.saved) = console Demo.saved ∨
  ∃ e : error,
    console (Demo.after (testTransfer (H := Demo.sdk)) Demo.saved) =
    console Demo.saved ++
    [ConsoleError
       (load_failed +:+ "./wallets/" +:+
        default "undefined" (env Demo.saved !! "TEST_WALLET_ADDRESS") +:+ ".json") e].
Proof.
  apply (testTransfer_never_reports_receipt (H := Demo.sdk) Demo.saved
           (Demo.after (testTransfer (H := Demo.sdk)) Demo.saved)
           (testTransfer (H := Demo.sdk) Demo.saved).1).
  apply surjective_pairing.
Defined.

(** ** The functions run end to end *)

Example createWallets_saved_loaded :
  (∃ wallets : list HDNodeWallet.t,
      (loadWallets (H := Demo.sdk) "./wallets" Demo.saved).1 = Return wallets ∧
      wallets ≡ₚ [Demo.alice; Demo.bob]) ∧
  console Demo.saved = [] ∧
  children (files Demo.saved) "./wallets"
    ≡ₚ [HDNodeWallet.address Demo.alice +:+ ".json";
        HDNodeWallet.address Demo.bob +:+ ".json"].
Proof.
  split; [by eexists |]. split; [reflexivity |]. by vm_compute.
Qed.

Example loadWallets_mixed_console :
  console (Demo.after (loadWallets (H := Demo.sdk) "./wallets") Demo.mixed)
    = [ConsoleError (load_failed +:+ "./wallets/notes.json") SyntaxError].
Proof. reflexivity. Qed.

Example loadWallets_on_a_file :
  loadWallets (H := Demo.sdk) "./wallets/notes.json" Demo.mixed
    = (Throw (FsError "ENOTDIR" "./wallets/notes.json"), Demo.mixed).
Proof. reflexivity. Qed.

Example JSON_stringify_carol :
  JSON_parse (JSON_stringify (getWalletData Demo.carol))
    = Some (JObject [("address", JString (HDNodeWallet.address Demo.carol));
                     ("privateKey", JString (HDNodeWallet.privateKey Demo.carol));
                     ("publicKey", JString (HDNodeWallet.publicKey Demo.carol))]).
Proof. reflexivity. Qed.
